(** * go-unexport: a shallow embedding of [unexport.go]

    First the run-time notions the program leans on (strings as byte
    sequences, UTF-8, maps that may be nil, syntax trees), then the
    [linter] with its collector, the helpers [toLowerFirst] and
    [prettyError], the steps that run the renamer, and finally the
    properties of the decision and reporting core. *)

From Stdlib Require Import ZArith String Ascii List Bool Lia DecimalString.
From stdpp Require Import base option strings gmap.

Open Scope string_scope.
Open Scope Z_scope.

(** ** Go strings

    A Go string is a sequence of bytes; [String.string] is a list of
    8-bit characters, so the two agree.  Concatenation is [+:+]. *)

Definition byte_val (c : ascii) : Z := Z.of_N (N_of_ascii c).

(** [byte(x)]: conversion to [uint8] keeps the low eight bits. *)
Definition to_byte (x : Z) : ascii := ascii_of_N (Z.to_N (Z.land x 0xFF)).

(** [len(s)] *)
Definition len (s : string) : Z := Z.of_nat (String.length s).

(** [s[k:]].  Go panics when [k] exceeds [len(s)]; the one use below
    is within range (see [toLowerFirst_slice_in_range]), and out of
    range this function gives the empty string. *)
Fixpoint slice_from (k : nat) (s : string) : string :=
  match k, s with
  | O, _ => s
  | S _, EmptyString => EmptyString
  | S k', String _ t => slice_from k' t
  end.

(** [strings.Contains(s, substr)]: some suffix of [s] starts with
    [substr]. *)
Fixpoint Contains (s substr : string) : bool :=
  String.prefix substr s ||
  match s with
  | EmptyString => false
  | String _ t => Contains t substr
  end.

(** [strings.Split(s, ",")]: the pieces between separators; a string
    without separator, the empty one included, is its own single
    piece. *)
Fixpoint Split_comma (s : string) : list string :=
  match s with
  | EmptyString => [EmptyString]
  | String c t =>
      if Ascii.eqb c "," then EmptyString :: Split_comma t
      else match Split_comma t with
           | p :: ps => String c p :: ps
           | [] => [String c EmptyString]
           end
  end.

(** [strconv.Itoa] / the [%d] verb. *)
Definition Itoa (n : Z) : string := NilZero.string_of_int (Z.to_int n).

(** ** UTF-8 (package [unicode/utf8]) *)

Module utf8.

Definition RuneError : Z := 0xFFFD.
Definition MaxRune : Z := 0x10FFFF.
Definition surrogateMin : Z := 0xD800.
Definition surrogateMax : Z := 0xDFFF.

Definition t2 : Z := 0xC0.
Definition t3 : Z := 0xE0.
Definition t4 : Z := 0xF0.
Definition tx : Z := 0x80.
Definition maskx : Z := 0x3F.
Definition mask2 : Z := 0x1F.
Definition mask3 : Z := 0x0F.
Definition mask4 : Z := 0x07.

Definition rune1Max : Z := 0x7F.
Definition rune2Max : Z := 0x7FF.
Definition rune3Max : Z := 0xFFFF.

Definition locb : Z := 0x80.
Definition hicb : Z := 0xBF.

(** Codes of the [first] table: the low three bits are the width of
    the sequence a lead byte opens, the high four an index into
    [acceptRanges]. *)
Definition xx : Z := 0xF1.
Definition as_ : Z := 0xF0.
Definition s1 : Z := 0x02.
Definition s2 : Z := 0x13.
Definition s3 : Z := 0x03.
Definition s4 : Z := 0x23.
Definition s5 : Z := 0x34.
Definition s6 : Z := 0x04.
Definition s7 : Z := 0x44.

(** The 256-entry table [first], by ranges of the lead byte. *)
Definition first (b : Z) : Z :=
  if b <=? 0x7F then as_
  else if b <=? 0xC1 then xx
  else if b <=? 0xDF then s1
  else if b =? 0xE0 then s2
  else if b <=? 0xEC then s3
  else if b =? 0xED then s4
  else if b <=? 0xEF then s3
  else if b =? 0xF0 then s5
  else if b <=? 0xF3 then s6
  else if b =? 0xF4 then s7
  else xx.

(** [acceptRanges]: bounds [(lo, hi)] on the second byte. *)
Definition acceptRanges (i : Z) : Z * Z :=
  if i =? 1 then (0xA0, hicb)
  else if i =? 2 then (locb, 0x9F)
  else if i =? 3 then (0x90, hicb)
  else if i =? 4 then (locb, 0x8F)
  else (locb, hicb).

Definition out_of (lo hi b : Z) : bool := (b <? lo) || (hi <? b).

(** [DecodeRuneInString]: the first rune of [s] and its width in
    bytes; [(RuneError, 0)] on the empty string and [(RuneError, 1)]
    on a malformed sequence. *)
Definition DecodeRuneInString (s : string) : Z * Z :=
  match s with
  | EmptyString => (RuneError, 0)
  | String c0 r0 =>
      let b0 := byte_val c0 in
      let x := first b0 in
      if as_ <=? x then
        (* ASCII or invalid: the mask is all ones iff [x] is [xx] *)
        (if Z.testbit x 0 then RuneError else b0, 1)
      else
        let sz := Z.land x 7 in
        let '(lo, hi) := acceptRanges (Z.shiftr x 4) in
        if len s <? sz then (RuneError, 1) else
        match r0 with
        | EmptyString => (RuneError, 1)
        | String c1 r1 =>
            let b1 := byte_val c1 in
            if out_of lo hi b1 then (RuneError, 1) else
            if sz <=? 2 then
              (Z.lor (Z.shiftl (Z.land b0 mask2) 6) (Z.land b1 maskx), 2)
            else
            match r1 with
            | EmptyString => (RuneError, 1)
            | String c2 r2 =>
                let b2 := byte_val c2 in
                if out_of locb hicb b2 then (RuneError, 1) else
                if sz <=? 3 then
                  (Z.lor (Z.lor (Z.shiftl (Z.land b0 mask3) 12)
                                (Z.shiftl (Z.land b1 maskx) 6))
                         (Z.land b2 maskx), 3)
                else
                match r2 with
                | EmptyString => (RuneError, 1)
                | String c3 _ =>
                    let b3 := byte_val c3 in
                    if out_of locb hicb b3 then (RuneError, 1) else
                    (Z.lor (Z.lor (Z.lor (Z.shiftl (Z.land b0 mask4) 18)
                                         (Z.shiftl (Z.land b1 maskx) 12))
                                  (Z.shiftl (Z.land b2 maskx) 6))
                           (Z.land b3 maskx), 4)
                end
            end
        end
  end.

Definition enc3 (r : Z) : string :=
  String (to_byte (Z.lor t3 (Z.shiftr r 12)))
    (String (to_byte (Z.lor tx (Z.land (Z.shiftr r 6) maskx)))
       (String (to_byte (Z.lor tx (Z.land r maskx))) EmptyString)).

(** [string(r)] for a rune [r]: its UTF-8 encoding, and the encoding
    of [RuneError] for a negative value, a surrogate or a value
    above [MaxRune]. *)
Definition string_of_rune (r : Z) : string :=
  if (0 <=? r) && (r <=? rune1Max) then
    String (to_byte r) EmptyString
  else if (0 <=? r) && (r <=? rune2Max) then
    String (to_byte (Z.lor t2 (Z.shiftr r 6)))
      (String (to_byte (Z.lor tx (Z.land r maskx))) EmptyString)
  else if (r <? 0) || (MaxRune <? r)
          || ((surrogateMin <=? r) && (r <=? surrogateMax)) then
    enc3 RuneError
  else if r <=? rune3Max then
    enc3 r
  else
    String (to_byte (Z.lor t4 (Z.shiftr r 18)))
      (String (to_byte (Z.lor tx (Z.land (Z.shiftr r 12) maskx)))
         (String (to_byte (Z.lor tx (Z.land (Z.shiftr r 6) maskx)))
            (String (to_byte (Z.lor tx (Z.land r maskx))) EmptyString))).

End utf8.

(** ** Maps that may be nil

    A Go map variable is either nil or a reference to a table.  Reading
    a nil map yields the zero value; writing to it panics. *)

Definition gomap (V : Type) : Type := option (gmap string V).

(** [m[k]] for a [map[string]bool]. *)
Definition map_get (m : gomap bool) (k : string) : bool :=
  match m with
  | None => false
  | Some g => default false (g !! k)
  end.

(** [m[k] = v]; [None] is the panic on a nil map. *)
Definition map_set {V : Type} (m : gomap V) (k : string) (v : V)
  : option (gomap V) :=
  match m with
  | None => None
  | Some g => Some (Some (<[k := v]> g))
  end.

Definition is_nil {V : Type} (m : gomap V) : bool :=
  match m with None => true | Some _ => false end.

(** ** Syntax trees and positions (packages [go/ast], [go/token])

    Only what the collector looks at is kept, together with function
    bodies, which it does not look at. *)

(** [token.Position] *)
Record Position := {
  Filename : string;
  Offset : Z;
  Line : Z;
  Column : Z
}.

(** [ast.Ident]; [Pos()] of an identifier is its [NamePos]. *)
Record Ident := {
  NamePos : Z;
  Name : string
}.

(** [ast.Spec]: [*ast.ImportSpec], [*ast.ValueSpec] with its [Names],
    [*ast.TypeSpec] with its [Name]. *)
Inductive Spec :=
| ImportSpec
| ValueSpec (Names : list Ident)
| TypeSpec (TypeName : Ident).

(** Statements of a function body: a declaration statement, a nested
    block, anything else. *)
#[warnings="-register-all"]
Inductive Stmt :=
| DeclStmt (Specs : list Spec)
| BlockStmt (List : list Stmt)
| OtherStmt.

(** [ast.Decl]: [*ast.BadDecl], [*ast.GenDecl] with its [Specs],
    [*ast.FuncDecl] (functions and methods alike) with its [Name] and
    [Body]. *)
Inductive Decl :=
| BadDecl
| GenDecl (Specs : list Spec)
| FuncDecl (FuncName : Ident) (Body : list Stmt).

(** [ast.File]; [Pos()] of a file is the position of its [package]
    keyword. *)
Record File := {
  Package : Z;
  Decls : list Decl
}.

(** [packages.Package] *)
Record Pkg := {
  Syntax : list File
}.

(** [pkgload.Unit]: a package and, when it has one, its test variant. *)
Record Unit := {
  Base : Pkg;
  Test : option Pkg
}.

(** ** The linter *)

Record Flags := {
  targets : list string;
  verbose : bool;
  unexport_flag : string;
  skip_flag : string
}.

Record linter := {
  fset : Z -> Position;
  pkgs : list Pkg;
  flags : Flags;
  unexport : gomap bool;
  skip : gomap bool;
  symbols : list Ident;
  success : gomap string
}.

Definition set_symbols (l : linter) (v : list Ident) : linter :=
  {| fset := fset l; pkgs := pkgs l; flags := flags l;
     unexport := unexport l; skip := skip l;
     symbols := v; success := success l |}.

Definition set_success (l : linter) (v : gomap string) : linter :=
  {| fset := fset l; pkgs := pkgs l; flags := flags l;
     unexport := unexport l; skip := skip l;
     symbols := symbols l; success := v |}.

Definition set_unexport (l : linter) (v : gomap bool) : linter :=
  {| fset := fset l; pkgs := pkgs l; flags := flags l;
     unexport := v; skip := skip l;
     symbols := symbols l; success := success l |}.

Definition set_skip (l : linter) (v : gomap bool) : linter :=
  {| fset := fset l; pkgs := pkgs l; flags := flags l;
     unexport := unexport l; skip := v;
     symbols := symbols l; success := success l |}.

Definition set_flags (l : linter) (v : Flags) : linter :=
  {| fset := fset l; pkgs := pkgs l; flags := v;
     unexport := unexport l; skip := skip l;
     symbols := symbols l; success := success l |}.

Definition set_loaded (l : linter) (fs : Z -> Position) (ps : list Pkg)
  : linter :=
  {| fset := fs; pkgs := ps; flags := flags l;
     unexport := unexport l; skip := skip l;
     symbols := symbols l; success := success l |}.

(** The zero value [var l linter]. *)
Definition zero_linter : linter :=
  {| fset := fun _ => {| Filename := ""; Offset := 0; Line := 0; Column := 0 |};
     pkgs := [];
     flags := {| targets := []; verbose := false;
                 unexport_flag := ""; skip_flag := "" |};
     unexport := None; skip := None; symbols := []; success := None |}.

(** ** Collecting symbols

    The collector only reads and appends to the linter, so its methods
    are functions from linter to linter. *)

Definition collectSym (l : linter) (sym : Ident) : linter :=
  if negb (is_nil (unexport l)) || map_get (unexport l) (Name sym) then
    if negb (map_get (skip l) (Name sym)) then
      set_symbols l (symbols l ++ [sym])%list
    else l
  else l.

(** Body of the loop over [decl.Specs]. *)
Definition collectSpec (l : linter) (spec : Spec) : linter :=
  match spec with
  | ValueSpec names => fold_left collectSym names l
  | TypeSpec name => collectSym l name
  | ImportSpec => l
  end.

(** Body of the loop over [f.Decls]. *)
Definition collectDecl (l : linter) (decl : Decl) : linter :=
  match decl with
  | GenDecl specs => fold_left collectSpec specs l
  | FuncDecl name _ => collectSym l name
  | BadDecl => l
  end.

Definition collectFileSymbols (l : linter) (f : File) : linter :=
  fold_left collectDecl (Decls f) l.

(** Body of the loop over [pkg.Syntax]. *)
Definition collectFile (l : linter) (f : File) : linter :=
  if String.eqb (Filename (fset l (Package f))) "" then l
  else collectFileSymbols l f.

Definition collectSymbols (l : linter) : linter :=
  fold_left (fun l pkg => fold_left collectFile (Syntax pkg) l) (pkgs l) l.

(** ** Case tables (package [unicode])

    [ToLower] and [IsUpper] decide the ASCII and Latin-1 ranges on
    their own and consult the Unicode tables beyond them; the tables
    are parameters of the development. *)

Module unicode.
Section Tables.

(** [To(LowerCase, r)] *)
Variable lowerCase : Z -> Z.
(** [isExcludingLatin(Upper, r)] *)
Variable upperExcludingLatin : Z -> bool.

Definition MaxASCII : Z := 0x7F.
Definition MaxLatin1 : Z := 0xFF.

Definition ToLower (r : Z) : Z :=
  if r <=? MaxASCII then
    if (65 <=? r) && (r <=? 90) then r + (97 - 65) else r
  else lowerCase r.

(** The upper-case letters of Latin-1: [A]..[Z], U+00C0..U+00D6 and
    U+00D8..U+00DE. *)
Definition latin1_upper (r : Z) : bool :=
  ((65 <=? r) && (r <=? 90))
  || ((0xC0 <=? r) && (r <=? 0xD6))
  || ((0xD8 <=? r) && (r <=? 0xDE)).

Definition IsUpper (r : Z) : bool :=
  if (0 <=? r) && (r <=? MaxLatin1) then latin1_upper r
  else upperExcludingLatin r.

End Tables.
End unicode.

(** ** The process: standard output, child processes

    [World] stands for everything a child process can read and change
    (the files on disk); [CombinedOutput] runs a command line in it and
    gives the output and whether [err != nil]. *)

Section Program.

Variable lowerCase : Z -> Z.
Variable upperExcludingLatin : Z -> bool.
(** [token.Position.String]: the [file:line:column] rendering. *)
Variable Position_String : Position -> string.
Variable World : Type.
Variable CombinedOutput : World -> list string -> string * bool * World.

Record Proc := {
  stdout : string;
  execs : list (list string);
  world : World
}.

(** A computation on the linter and the process; [None] is a run-time
    panic. *)
Definition M (A : Type) : Type := linter * Proc -> option (A * (linter * Proc)).

#[global] Instance M_ret : MRet M := fun A a st => Some (a, st).

#[global] Instance M_bind : MBind M := fun A B k m st =>
  match m st with
  | Some (a, st') => k a st'
  | None => None
  end.

Definition get_linter : M linter := fun st => Some (fst st, st).

Definition update (f : linter -> linter) : M unit :=
  fun st => Some (tt, (f (fst st), snd st)).

(** The process after [s] was written to standard output. *)
Definition printed (p : Proc) (s : string) : Proc :=
  {| stdout := stdout p +:+ s; execs := execs p; world := world p |}.

(** The process after the command line [argv] ran and left the world
    as [w]. *)
Definition executed (p : Proc) (argv : list string) (w : World) : Proc :=
  {| stdout := stdout p; execs := (execs p ++ [argv])%list; world := w |}.

Definition print (s : string) : M unit :=
  fun st => Some (tt, (fst st, printed (snd st) s)).

Definition newline : string := String (ascii_of_N 10) EmptyString.

(** [fmt.Println]: the operands separated by spaces, then a newline. *)
Definition Println (args : list string) : M unit :=
  print (String.concat " " args +:+ newline).

(** [exec.Command(name, arg...).CombinedOutput()] *)
Definition exec (argv : list string) : M (string * bool) :=
  fun st =>
    let '(out, err, w) := CombinedOutput (world (snd st)) argv in
    Some ((out, err), (fst st, executed (snd st) argv w)).

(** [for _, x := range xs { body }] *)
Fixpoint for_each {A} (xs : list A) (body : A -> M unit) : M unit :=
  match xs with
  | [] => mret tt
  | x :: xs' => body x ;; for_each xs' body
  end.

(** ** The helpers *)

Definition toLowerFirst (s : string) : string :=
  match s with
  | EmptyString => ""
  | String _ _ =>
      (* first iteration of [for i, v := range s] *)
      let i := 0%nat in
      let v := fst (utf8.DecodeRuneInString s) in
      utf8.string_of_rune (unicode.ToLower lowerCase v)
        +:+ slice_from (i + 1) s
  end.

Definition prettyError (s : string) : M string :=
  if Contains s "breaking references" then
    mret "would break package clients"
  else if Contains s "no identifier at this position" then
    mret "internal error: invalid position"
  else if Contains s "not a valid identifier" then
    mret "internal error: invalid identifier"
  else if Contains s "would conflict with this method" then
    mret "symbols with unexported name form already exists"
  else if Contains s "no longer assignable to interface" then
    mret "would breaks interface assignability"
  else
    Println ["unknown error: "; s] ;;
    mret "unknown error".

(** [ast.IsExported]: the first rune of the name is upper case. *)
Definition IsExported (name : string) : bool :=
  unicode.IsUpper upperExcludingLatin (fst (utf8.DecodeRuneInString name)).

(** ** The linter's steps

    In the Go file every step returns an [error] that is always nil;
    here a step is a computation without a result. *)

Definition init : M unit :=
  update (fun l => set_unexport l (Some ∅)) ;;
  update (fun l => set_skip l (Some ∅)) ;;
  update (fun l => set_success l (Some ∅)).

(** [l.unexport[sym] = true] *)
Definition mark_unexport (sym : string) : M unit :=
  fun st => match map_set (unexport (fst st)) sym true with
            | Some m => Some (tt, (set_unexport (fst st) m, snd st))
            | None => None
            end.

(** [l.skip[sym] = true] *)
Definition mark_skip (sym : string) : M unit :=
  fun st => match map_set (skip (fst st)) sym true with
            | Some m => Some (tt, (set_skip (fst st) m, snd st))
            | None => None
            end.

(** [l.success[key] = v] *)
Definition record_success (key v : string) : M unit :=
  fun st => match map_set (success (fst st)) key v with
            | Some m => Some (tt, (set_success (fst st) m, snd st))
            | None => None
            end.

(** [parsed] is what [flag.Parse] and [flag.Args] leave in [l.flags]. *)
Definition parseFlags (parsed : Flags) : M unit :=
  update (fun l => set_flags l parsed) ;;
  l ← get_linter;
  for_each (Split_comma (unexport_flag (flags l))) mark_unexport ;;
  for_each (Split_comma (skip_flag (flags l))) mark_skip.

(** [fs] and [units] are what [packages.Load] and [pkgload.VisitUnits]
    deliver; when the load fails, [main] stops before any later step. *)
Definition loadTargets (fs : Z -> Position) (units : list Unit) : M unit :=
  update (fun l =>
    set_loaded l fs
      (fold_left (fun ps u =>
                    match Test u with
                    | Some t => (ps ++ [t])%list
                    | None => (ps ++ [Base u])%list
                    end) units (pkgs l))).

Definition tryUnexport (pos : Z) (exported : string) : M string :=
  l ← get_linter;
  let posn := fset l pos in
  let offset := Filename posn +:+ ":#" +:+ Itoa (Offset posn) in
  let unexported := toLowerFirst exported in
  '(out, err) ← exec ["gorename"; "-offset"; offset; "-to"; unexported];
  let key := Position_String posn +:+ "/" +:+ exported in
  if err : bool then
    e ← prettyError out;
    mret ("impossible: " +:+ e)
  else
    record_success key (exported +:+ " -> " +:+ unexported) ;;
    mret "success".

(** Body of the loop over [l.symbols]. *)
Definition unexportSymbol (sym : Ident) : M unit :=
  if IsExported (Name sym) then
    print ("trying to unexport " +:+ Name sym +:+ "... ") ;;
    status ← tryUnexport (NamePos sym) (Name sym);
    Println ["(" +:+ status +:+ ")"]
  else mret tt.

Definition unexportSymbols : M unit :=
  l ← get_linter;
  for_each (symbols l) unexportSymbol.

End Program.

Arguments stdout {World} _.
Arguments execs {World} _.
Arguments world {World} _.
Arguments M_ret {World}.
Arguments M_bind {World}.
Arguments get_linter {World}.
Arguments update {World} f.
Arguments printed {World} p s.
Arguments executed {World} p argv w.
Arguments print {World} s.
Arguments Println {World} args.
Arguments exec {World} CombinedOutput argv.
Arguments for_each {World A} xs body.
Arguments prettyError {World} s.
Arguments init {World}.
Arguments mark_unexport {World} sym.
Arguments mark_skip {World} sym.
Arguments record_success {World} key v.
Arguments parseFlags {World} parsed.
Arguments loadTargets {World} fs units.
Arguments tryUnexport lowerCase Position_String {World} CombinedOutput pos exported.
Arguments unexportSymbol lowerCase upperExcludingLatin Position_String {World}
  CombinedOutput sym.
Arguments unexportSymbols lowerCase upperExcludingLatin Position_String {World} CombinedOutput.

(** ** Notions used to state the properties *)

(** The command line [tryUnexport] builds for a symbol. *)
Definition rename_argv (lowerCase : Z -> Z) (fs : Z -> Position)
    (sym : Ident) : list string :=
  ["gorename"; "-offset";
   Filename (fs (NamePos sym)) +:+ ":#" +:+ Itoa (Offset (fs (NamePos sym)));
   "-to"; toLowerFirst lowerCase (Name sym)].

(** The key and the description [tryUnexport] records on success. *)
Definition success_key (Position_String : Position -> string)
    (fs : Z -> Position) (pos : Z) (exported : string) : string :=
  Position_String (fs pos) +:+ "/" +:+ exported.

Definition success_text (lowerCase : Z -> Z) (exported : string) : string :=
  exported +:+ " -> " +:+ toLowerFirst lowerCase exported.

(** The test [collectSym] applies before it appends. *)
Definition retained (l : linter) (sym : Ident) : bool :=
  (negb (is_nil (unexport l)) || map_get (unexport l) (Name sym))
  && negb (map_get (skip l) (Name sym)).

(** The identifiers a spec, a top-level declaration and a file bind at
    top level; function bodies play no part. *)
Definition spec_idents (spec : Spec) : list Ident :=
  match spec with
  | ValueSpec names => names
  | TypeSpec name => [name]
  | ImportSpec => []
  end.

Definition decl_idents (decl : Decl) : list Ident :=
  match decl with
  | GenDecl specs => flat_map spec_idents specs
  | FuncDecl name _ => [name]
  | BadDecl => []
  end.

Definition top_level_idents (f : File) : list Ident :=
  flat_map decl_idents (Decls f).

(** A file with every function body emptied. *)
Definition erase_body (decl : Decl) : Decl :=
  match decl with
  | FuncDecl name _ => FuncDecl name []
  | d => d
  end.

Definition erase_bodies (f : File) : File :=
  {| Package := Package f; Decls := map erase_body (Decls f) |}.

(** The files of a package that have a file name. *)
Definition has_filename (fs : Z -> Position) (f : File) : bool :=
  negb (String.eqb (Filename (fs (Package f))) "").

Definition visited_idents (fs : Z -> Position) (ps : list Pkg) : list Ident :=
  flat_map (fun pkg =>
    flat_map top_level_idents (List.filter (has_filename fs) (Syntax pkg)))
    ps.

(** The error categories of the specification, the text [prettyError]
    returns for each, and the classification in the specification's
    priority order. *)
Inductive ErrorCategory :=
| WouldBreakClients
| InvalidPosition
| InvalidIdentifier
| NameCollision
| InterfaceAssignabilityBroken
| Unknown.

Definition category_text (c : ErrorCategory) : string :=
  match c with
  | WouldBreakClients => "would break package clients"
  | InvalidPosition => "internal error: invalid position"
  | InvalidIdentifier => "internal error: invalid identifier"
  | NameCollision => "symbols with unexported name form already exists"
  | InterfaceAssignabilityBroken => "would breaks interface assignability"
  | Unknown => "unknown error"
  end.

Definition category_substring (c : ErrorCategory) : option string :=
  match c with
  | WouldBreakClients => Some "breaking references"
  | InvalidPosition => Some "no identifier at this position"
  | InvalidIdentifier => Some "not a valid identifier"
  | NameCollision => Some "would conflict with this method"
  | InterfaceAssignabilityBroken => Some "no longer assignable to interface"
  | Unknown => None
  end.

Definition priority_order : list ErrorCategory :=
  [WouldBreakClients; InvalidPosition; InvalidIdentifier; NameCollision;
   InterfaceAssignabilityBroken].

(** First category of [order] whose substring occurs in [s], else
    [Unknown]. *)
Fixpoint classify_in (order : list ErrorCategory) (s : string)
  : ErrorCategory :=
  match order with
  | [] => Unknown
  | c :: rest =>
      match category_substring c with
      | Some sub => if Contains s sub then c else classify_in rest s
      | None => classify_in rest s
      end
  end.

Definition classify_spec (s : string) : ErrorCategory :=
  classify_in priority_order s.

(** The name transform as the specification words it: the first code
    point lower-cased, then the input from the end of that code
    point on. *)
Definition toLowerFirst_spec (lowerCase : Z -> Z) (s : string) : string :=
  match s with
  | EmptyString => ""
  | String _ _ =>
      let '(v, width) := utf8.DecodeRuneInString s in
      utf8.string_of_rune (unicode.ToLower lowerCase v)
        +:+ slice_from (Z.to_nat width) s
  end.

Definition is_ascii_letter (r : Z) : bool :=
  ((65 <=? r) && (r <=? 90)) || ((97 <=? r) && (r <=? 122)).

(** ** A concrete setting

    Tables restricted to Latin-1, a position rendering, and a renamer
    that refuses some names; used to run the program on examples. *)

Module Sample.

(** The Latin-1 rows of [unicode.CaseRanges]: U+00C0..U+00D6 and
    U+00D8..U+00DE map to the letter 32 places up. *)
Definition lowerCase (r : Z) : Z :=
  if ((0xC0 <=? r) && (r <=? 0xD6)) || ((0xD8 <=? r) && (r <=? 0xDE))
  then r + 32 else r.

Definition upperExcludingLatin (r : Z) : bool := false.

Definition Position_String (p : Position) : string :=
  Filename p +:+ ":" +:+ Itoa (Line p) +:+ ":" +:+ Itoa (Column p).

(** The renamer accepts every request but those for [baz] (used from
    another package) and [qux] (an unexplained failure). *)
Definition CombinedOutput (w : unit) (argv : list string)
  : string * bool * unit :=
  match argv with
  | [_; _; _; _; "baz"] =>
      ("renaming this func would cause breaking references", true, w)
  | [_; _; _; _; "qux"] => ("exit status 2", true, w)
  | _ => ("", false, w)
  end.

Definition fs (p : Z) : Position :=
  {| Filename := "a.go"; Offset := p;
     Line := 1 + p / 10; Column := 1 + p mod 10 |}.

Definition Foo : Ident := {| NamePos := 20; Name := "Foo" |}.
Definition bar : Ident := {| NamePos := 25; Name := "bar" |}.
Definition Baz : Ident := {| NamePos := 40; Name := "Baz" |}.
Definition Qux : Ident := {| NamePos := 60; Name := "Qux" |}.
Definition Inner : Ident := {| NamePos := 70; Name := "Inner" |}.

(** [var Foo, bar = ...; type Baz ...; func Qux() { type Inner ... }] *)
Definition a_go : File :=
  {| Package := 0;
     Decls := [GenDecl [ValueSpec [Foo; bar]; TypeSpec Baz];
               FuncDecl Qux [DeclStmt [TypeSpec Inner]]] |}.

(** A file without a file name. *)
Definition synthetic : File :=
  {| Package := -1; Decls := [GenDecl [TypeSpec Inner]] |}.

Definition fs' (p : Z) : Position :=
  if p <? 0 then {| Filename := ""; Offset := 0; Line := 0; Column := 0 |}
  else fs p.

Definition proc0 : Proc unit :=
  {| stdout := ""; execs := []; world := tt |}.

(** The linter after [init]. *)
Definition ready : linter :=
  set_success (set_skip (set_unexport zero_linter (Some ∅)) (Some ∅)) (Some ∅).

Definition loaded : linter :=
  set_loaded ready fs' [ {| Syntax := [a_go; synthetic] |} ].

(** The loaded linter with [Foo] in the skip set. *)
Definition skipping : linter :=
  set_skip loaded (Some {[ "Foo" := true ]}).

(** The loaded linter after the collection. *)
Definition collected : linter := collectSymbols loaded.

(** The flags of [go-unexport -unexport=Bar pkg] and the linter
    after [init] and [parseFlags] on them. *)
Definition flags_Bar : Flags :=
  {| targets := ["pkg"]; verbose := false;
     unexport_flag := "Bar"; skip_flag := "" |}.

Definition configured : linter :=
  {| fset := fset zero_linter; pkgs := []; flags := flags_Bar;
     unexport := Some {[ "Bar" := true ]};
     skip := Some {[ "" := true ]};
     symbols := []; success := Some ∅ |}.

(** [Élan], whose first code point takes two bytes. *)
Definition Elan : string :=
  String (ascii_of_N 0xC3) (String (ascii_of_N 0x89) "lan").

End Sample.

(** ** Reporting

    [range] over a map visits every entry once, in an order the
    language leaves open; [range_order] is that order. *)

Section Reporter.

Variable World : Type.
Variable range_order : gmap string string -> list (string * string).

Definition tab : string := String (ascii_of_N 9) EmptyString.

(** [len(m)] of a map; a nil map has length 0. *)
Definition map_len {V : Type} (m : gomap V) : Z :=
  match m with
  | None => 0
  | Some g => Z.of_nat (size g)
  end.

(** [for key, renamed := range m] *)
Definition map_range (m : gomap string) : list (string * string) :=
  match m with
  | None => []
  | Some g => range_order g
  end.

(** Body of the loop over [l.success]:
    [fmt.Printf("\t%s: %s\n", key, renamed)]. *)
Definition printResult (entry : string * string) : M World unit :=
  print (tab +:+ fst entry +:+ ": " +:+ snd entry +:+ newline).

Definition printResults : M World unit :=
  l ← get_linter;
  if negb (verbose (flags l)) then mret tt
  else
    if negb (map_len (success l) =? 0) then
      Println ["unexported:"] ;;
      for_each (map_range (success l)) printResult
    else mret tt.

End Reporter.

Arguments printResult {World} entry.
Arguments printResults {World} range_order.

(** ** The main function

    [packages.Load] reads the targets from the world and gives either
    the file set it filled and the units [pkgload.VisitUnits] goes
    through, or an error. *)

Inductive LoadResult :=
| Loaded (fs : Z -> Position) (units : list Unit)
| LoadFailed (err : string).

(** How [main] ends: it returns, or [log.Fatalf] stops the process
    with a message. *)
Inductive Exit :=
| Done
| Fatal (msg : string).

(** [token.NewFileSet()]: no file yet, every position is the zero
    position. *)
Definition NewFileSet : Z -> Position :=
  fun _ => {| Filename := ""; Offset := 0; Line := 0; Column := 0 |}.

Section Main.

Variable lowerCase : Z -> Z.
Variable upperExcludingLatin : Z -> bool.
Variable Position_String : Position -> string.
Variable World : Type.
Variable CombinedOutput : World -> list string -> string * bool * World.
Variable range_order : gmap string string -> list (string * string).
Variable Load : World -> list string -> LoadResult.

(** [loadTargets] with its error result: the file set is made first,
    and a failed load returns the error before [l.pkgs] is touched. *)
Definition get_world : M World World :=
  fun st => Some (world (snd st), st).

Definition loadTargets_step : M World (option string) :=
  update (fun l => set_loaded l NewFileSet (pkgs l)) ;;
  l ← get_linter;
  w ← get_world;
  match Load w (targets (flags l)) with
  | LoadFailed err => mret (Some err)
  | Loaded fs units => loadTargets fs units ;; mret None
  end.

(** A step that always returns a nil error. *)
Definition returns_nil (step : M World unit) : M World (option string) :=
  step ;; mret None.

(** [for _, step := range steps { if err := step.fn(); err != nil {
    log.Fatalf("%s: %v", step.name, err) } }] *)
Fixpoint run_steps (steps : list (string * M World (option string)))
  : M World Exit :=
  match steps with
  | [] => mret Done
  | (name, fn) :: rest =>
      err ← fn;
      match err with
      | Some e => mret (Fatal (name +:+ ": " +:+ e))
      | None => run_steps rest
      end
  end.

(** [parsed] is what [flag.Parse] makes of the command line. *)
Definition main_steps (parsed : Flags)
  : list (string * M World (option string)) :=
  [("init linter", returns_nil init);
   ("parse flags", returns_nil (parseFlags parsed));
   ("load targets", loadTargets_step);
   ("collect symbols", returns_nil (update collectSymbols));
   ("unexport symbols",
    returns_nil (unexportSymbols lowerCase upperExcludingLatin
                   Position_String CombinedOutput));
   ("print results", returns_nil (printResults range_order))].

(** [main] starts from the zero linter [var l linter]. *)
Definition main (parsed : Flags) (p : Proc World)
  : option (Exit * (linter * Proc World)) :=
  run_steps (main_steps parsed) (zero_linter, p).

End Main.

Arguments get_world {World}.
Arguments loadTargets_step {World} Load.
Arguments returns_nil {World} step.
Arguments run_steps {World} steps.
Arguments main_steps lowerCase upperExcludingLatin Position_String {World}
  CombinedOutput range_order Load parsed.
Arguments main lowerCase upperExcludingLatin Position_String {World}
  CombinedOutput range_order Load parsed p.

(** ** Further notions used to state properties *)

(** The package [loadTargets] keeps for a unit: the test variant when
    there is one, the base package otherwise. *)
Definition unit_pkg (u : Unit) : Pkg :=
  match Test u with
  | Some t => t
  | None => Base u
  end.

(** The line [printResults] writes for an entry. *)
Definition result_line (entry : string * string) : string :=
  tab +:+ fst entry +:+ ": " +:+ snd entry +:+ newline.

(** The world after the command lines [cmds] ran one after the other. *)
Definition run_in_order {World : Type}
    (CombinedOutput : World -> list string -> string * bool * World)
    (w : World) (cmds : list (list string)) : World :=
  fold_left (fun w argv => snd (CombinedOutput w argv)) cmds w.

(** A Unicode scalar value: within range and not a surrogate. *)
Definition valid_rune (r : Z) : bool :=
  (0 <=? r) && (r <=? utf8.MaxRune)
  && negb ((utf8.surrogateMin <=? r) && (r <=? utf8.surrogateMax)).

Definition is_ascii_upper (b : Z) : bool := (65 <=? b) && (b <=? 90).

(** Does the string have a comma in it? *)
Fixpoint has_comma (s : string) : bool :=
  match s with
  | EmptyString => false
  | String c t => Ascii.eqb c "," || has_comma t
  end.

(** The strings of a list, one after the other. *)
Fixpoint join (ls : list string) : string :=
  match ls with
  | [] => ""
  | x :: xs => x +:+ join xs
  end.

(** The map with the keys [ks] set to [true]. *)
Definition mark_all (ks : list string) (g : gmap string bool)
  : gmap string bool :=
  fold_left (fun g k => <[k := true]> g) ks g.

(** More of the concrete setting: a renamer that refuses everything,
    a map order, two loaders. *)

Module Scenario.

Definition refuse_all (w : unit) (argv : list string)
  : string * bool * unit :=
  ("renaming this type would cause breaking references", true, w).

Definition accept_all (w : unit) (argv : list string)
  : string * bool * unit :=
  ("", false, w).

(** A renamer that accepts everything and counts its runs in the
    world. *)
Definition count_renames (w : Z) (argv : list string) : string * bool * Z :=
  ("", false, w + 1).

Definition counting0 : Proc Z :=
  {| stdout := ""; execs := []; world := 0 |}.

Definition range_order (g : gmap string string) : list (string * string) :=
  map_to_list g.

(** One unit, whose test variant has the two sample files. *)
Definition units : list Unit :=
  [ {| Base := {| Syntax := [Sample.a_go] |};
       Test := Some {| Syntax := [Sample.a_go; Sample.synthetic] |} |} ].

Definition Load (w : unit) (targets : list string) : LoadResult :=
  Loaded Sample.fs' units.

Definition Load_fails (w : unit) (targets : list string) : LoadResult :=
  LoadFailed "no Go files".

Definition flags_skip_Foo : Flags :=
  {| targets := ["pkg"]; verbose := true;
     unexport_flag := ""; skip_flag := "Foo,Qux" |}.

Definition flags_default : Flags :=
  {| targets := ["pkg"]; verbose := false;
     unexport_flag := ""; skip_flag := "" |}.

End Scenario.

(** * Properties *)

(** ** Strings *)

Lemma prefix_append (a b : string) :
  String.prefix a b = true <-> exists post, b = a +:+ post.
Proof.
  revert b. induction a as [|c a IH]; intros [|d b]; simpl.
  - split; [intros _; exists ""; reflexivity | reflexivity].
  - split; [intros _; exists (String d b); reflexivity | reflexivity].
  - split; [discriminate | intros [post H]; discriminate].
  - destruct (ascii_dec c d) as [->|Hne].
    + rewrite IH. split; intros [post H]; exists post.
      * now rewrite H.
      * now inversion H.
    + split; [discriminate |].
      intros [post H]. inversion H. congruence.
Qed.

(** [Contains] finds exactly the strings that have [substr] somewhere
    inside. *)
Lemma Contains_occurs (s substr : string) :
  Contains s substr = true <->
  exists pre post, s = pre +:+ substr +:+ post.
Proof.
  induction s as [|c s IH].
  - cbn [Contains]. rewrite orb_false_r, prefix_append. split.
    + intros [post H]. exists "", post. exact H.
    + intros [pre [post H]]. destruct pre; [eauto | discriminate].
  - cbn [Contains]. rewrite orb_true_iff, prefix_append, IH. split.
    + intros [[post H] | [pre [post H]]].
      * exists "", post. exact H.
      * exists (String c pre), post. simpl. now rewrite H.
    + intros [pre [post H]]. destruct pre as [|d pre].
      * left. exists post. exact H.
      * right. simpl in H. inversion H. eauto.
Qed.

(** stdpp keeps [simpl] from unfolding [+:+]; these two equations do
    the unfolding. *)
Lemma append_nil_l (b : string) : "" +:+ b = b.
Proof. reflexivity. Qed.

Lemma append_cons (c : ascii) (a b : string) :
  String c a +:+ b = String c (a +:+ b).
Proof. reflexivity. Qed.

Lemma append_nil_r (s : string) : s +:+ "" = s.
Proof.
  induction s as [|c s IH]; [reflexivity |].
  now rewrite append_cons, IH.
Qed.

Lemma append_assoc (a b c : string) : (a +:+ b) +:+ c = a +:+ b +:+ c.
Proof.
  induction a as [|x a IH]; [reflexivity |].
  now rewrite !append_cons, IH.
Qed.

Lemma append_inv_head (a b c : string) : a +:+ b = a +:+ c -> b = c.
Proof.
  induction a as [|x a IH]; [trivial |].
  rewrite !append_cons. intros H. inversion H. auto.
Qed.

(** ** The error classifier *)

Section Classifier.

Context {World : Type}.
Implicit Types (st : linter * Proc World) (s : string).

(** What [prettyError] returns, whatever the state it runs in. *)
Lemma prettyError_returns s st :
  exists st', prettyError s st = Some (category_text (classify_spec s), st').
Proof.
  unfold prettyError, classify_spec, priority_order.
  cbn [classify_in category_substring].
  repeat (destruct (Contains s _); [eexists; reflexivity |]).
  eexists. reflexivity.
Qed.

Lemma category_text_inj (c d : ErrorCategory) :
  category_text c = category_text d -> c = d.
Proof. destruct c, d; simpl; intros H; solve [reflexivity | discriminate H]. Qed.

(** The priority order, written out. *)
Lemma classify_spec_unfold s :
  classify_spec s =
  if Contains s "breaking references" then WouldBreakClients
  else if Contains s "no identifier at this position" then InvalidPosition
  else if Contains s "not a valid identifier" then InvalidIdentifier
  else if Contains s "would conflict with this method" then NameCollision
  else if Contains s "no longer assignable to interface"
       then InterfaceAssignabilityBroken
  else Unknown.
Proof. reflexivity. Qed.

(** C4: [prettyError] classifies a diagnostic by the first substring
    found in the order breaking references, invalid position, invalid
    identifier, naming collision, interface assignability, else
    unknown; the category it returns is the only one; and a text
    that has "breaking references" in it is classified as
    WouldBreakClients whatever else it has in it. *)
Theorem prettyError_fixed_priority :
  (forall s st, exists st',
     prettyError s st = Some (category_text (classify_spec s), st'))
  /\ (forall s st c st',
        prettyError s st = Some (category_text c, st') ->
        c = classify_spec s)
  /\ (forall s st,
        Contains s "breaking references" = true ->
        prettyError s st = Some (category_text WouldBreakClients, st)).
Proof.
  split; [exact prettyError_returns | split].
  - intros s st c st' H.
    destruct (prettyError_returns s st) as [st'' E].
    rewrite E in H. inversion H. now apply category_text_inj.
  - intros s st H. unfold prettyError. now rewrite H.
Qed.

(** C8: a diagnostic with none of the five substrings in it is
    classified as unknown, which is the text of no other category,
    and it is written to standard output as it is, after the words
    [unknown error:]. *)
Theorem prettyError_unknown_verbatim s st :
  Contains s "breaking references" = false ->
  Contains s "no identifier at this position" = false ->
  Contains s "not a valid identifier" = false ->
  Contains s "would conflict with this method" = false ->
  Contains s "no longer assignable to interface" = false ->
  prettyError s st
  = Some ("unknown error",
          (fst st,
           printed (snd st) (("unknown error: " +:+ " " +:+ s) +:+ newline)))
  /\ classify_spec s = Unknown
  /\ (forall c, category_text c = "unknown error" -> c = Unknown).
Proof.
  intros H1 H2 H3 H4 H5. split; [|split].
  - unfold prettyError. rewrite H1, H2, H3, H4, H5. reflexivity.
  - rewrite classify_spec_unfold, H1, H2, H3, H4, H5. reflexivity.
  - intros c Hc. now apply category_text_inj.
Qed.

End Classifier.

Lemma prettyError_fixed_priority_witness :
  Contains "breaking references: no longer assignable to interface"
           "no longer assignable to interface" = true
  /\ Contains "breaking references: no longer assignable to interface"
              "breaking references" = true
  /\ prettyError "breaking references: no longer assignable to interface"
                 (Sample.ready, Sample.proc0)
     = Some ("would break package clients", (Sample.ready, Sample.proc0))
  /\ WouldBreakClients
     = classify_spec "breaking references: no longer assignable to interface".
Proof.
  destruct (@prettyError_fixed_priority unit) as (_ & Hone & Hfirst).
  pose proof (Hfirst "breaking references: no longer assignable to interface"
                (Sample.ready, Sample.proc0) eq_refl) as Hrun.
  split; [reflexivity | split; [reflexivity | split; [exact Hrun |]]].
  exact (Hone _ _ WouldBreakClients _ Hrun).
Defined.

Lemma prettyError_unknown_verbatim_witness :
  prettyError "exit status 2" (Sample.ready, Sample.proc0)
  = Some ("unknown error",
          (Sample.ready,
           {| stdout := "unknown error:  exit status 2" +:+ newline;
              execs := []; world := tt |})).
Proof.
  exact (proj1 (prettyError_unknown_verbatim "exit status 2"
                  (Sample.ready, Sample.proc0)
                  eq_refl eq_refl eq_refl eq_refl eq_refl)).
Defined.

(** ** UTF-8 decoding

    A lead byte below [0x80] decodes to itself; every other lead byte
    gives a rune above [0x7F] (the error rune when the sequence is
    malformed). *)

Lemma byte_val_range (c : ascii) : 0 <= byte_val c < 256.
Proof. unfold byte_val. pose proof (N_ascii_bounded c). lia. Qed.

Lemma lor_ge_l (k a b : Z) :
  0 <= k -> 0 <= a -> 0 <= b -> 2 ^ k <= a -> 2 ^ k <= Z.lor a b.
Proof.
  intros Hk Ha Hb Hle.
  destruct (Z.lt_ge_cases (Z.lor a b) (2 ^ k)) as [Hlt|]; [exfalso | assumption].
  assert (0 < 2 ^ k) by (apply Z.pow_pos_nonneg; lia).
  assert (Hpos : 0 < Z.lor a b).
  { assert (0 <= Z.lor a b) by (apply Z.lor_nonneg; auto).
    destruct (Z.eq_dec (Z.lor a b) 0) as [E|]; [|lia].
    apply Z.lor_eq_0_iff in E. lia. }
  apply Z.log2_lt_pow2 in Hlt; [|assumption].
  rewrite Z.log2_lor in Hlt by assumption.
  assert (Z.log2 a < k) by lia.
  apply Z.log2_lt_pow2 in H0; lia.
Qed.

Lemma lor_ge_r (k a b : Z) :
  0 <= k -> 0 <= a -> 0 <= b -> 2 ^ k <= b -> 2 ^ k <= Z.lor a b.
Proof. intros. rewrite Z.lor_comm. now apply lor_ge_l. Qed.

Lemma decode_ascii (c : ascii) (t : string) :
  byte_val c <= 0x7F -> utf8.DecodeRuneInString (String c t) = (byte_val c, 1).
Proof.
  intros H. unfold utf8.DecodeRuneInString, utf8.first.
  replace (byte_val c <=? 127) with true by (symmetry; apply Z.leb_le; exact H).
  reflexivity.
Qed.

Lemma out_of_false (lo hi b : Z) :
  utf8.out_of lo hi b = false -> lo <= b <= hi.
Proof. unfold utf8.out_of. rewrite orb_false_iff, !Z.ltb_ge. lia. Qed.

Lemma land_low (x : Z) :
  Z.land x 63 = x mod 64 /\ Z.land x 31 = x mod 32 /\
  Z.land x 15 = x mod 16 /\ Z.land x 7 = x mod 8.
Proof.
  change 63 with (Z.ones 6). change 31 with (Z.ones 5).
  change 15 with (Z.ones 4). change 7 with (Z.ones 3).
  rewrite !Z.land_ones by lia. auto.
Qed.

Lemma shiftl_mul (x : Z) :
  Z.shiftl x 6 = x * 64 /\ Z.shiftl x 12 = x * 4096 /\
  Z.shiftl x 18 = x * 262144.
Proof. rewrite !Z.shiftl_mul_pow2 by lia. auto. Qed.

Ltac bits_to_arith :=
  repeat match goal with
  | |- context [Z.land ?x 63] => rewrite (proj1 (land_low x))
  | |- context [Z.land ?x 31] => rewrite (proj1 (proj2 (land_low x)))
  | |- context [Z.land ?x 15] => rewrite (proj1 (proj2 (proj2 (land_low x))))
  | |- context [Z.land ?x 7] => rewrite (proj2 (proj2 (proj2 (land_low x))))
  | |- context [Z.shiftl ?x 6] => rewrite (proj1 (shiftl_mul x))
  | |- context [Z.shiftl ?x 12] => rewrite (proj1 (proj2 (shiftl_mul x)))
  | |- context [Z.shiftl ?x 18] => rewrite (proj2 (proj2 (shiftl_mul x)))
  end.

Ltac nonneg :=
  repeat first
    [ apply Z.lor_nonneg; split
    | apply Z.shiftl_nonneg
    | apply Z.land_nonneg; right; lia ].

Ltac component_bound :=
  bits_to_arith; change (2 ^ 7) with 128; Z.div_mod_to_equations; lia.

Ltac eval_closed :=
  repeat match goal with
  | |- context [Z.land (Zpos ?p) 7] =>
      let v := eval vm_compute in (Z.land (Zpos p) 7) in
      change (Z.land (Zpos p) 7) with v
  | |- context [Z.shiftr (Zpos ?p) 4] =>
      let v := eval vm_compute in (Z.shiftr (Zpos p) 4) in
      change (Z.shiftr (Zpos p) 4) with v
  | |- context [Zpos ?p <=? Zpos ?q] =>
      let v := eval vm_compute in (Zpos p <=? Zpos q) in
      change (Zpos p <=? Zpos q) with v
  | |- context [utf8.acceptRanges (Zpos ?p)] =>
      let v := eval vm_compute in (utf8.acceptRanges (Zpos p)) in
      change (utf8.acceptRanges (Zpos p)) with v
  | |- context [utf8.acceptRanges 0] =>
      let v := eval vm_compute in (utf8.acceptRanges 0) in
      change (utf8.acceptRanges 0) with v
  end; cbv beta iota.

Ltac lor_bound :=
  first
    [ apply lor_ge_l; [lia | solve [nonneg] | solve [nonneg] | lor_bound]
    | apply lor_ge_r; [lia | solve [nonneg] | solve [nonneg] | lor_bound]
    | component_bound ].

Lemma decode_non_ascii (c : ascii) (t : string) :
  0x7F < byte_val c -> 0x7F < fst (utf8.DecodeRuneInString (String c t)).
Proof.
  intros H. pose proof (byte_val_range c) as Hr.
  unfold utf8.DecodeRuneInString.
  generalize (len (String c t)). intros n.
  set (b0 := byte_val c) in *. clearbody b0.
  unfold utf8.first.
  repeat match goal with
  | |- context [b0 <=? ?k] => destruct (Z.leb_spec b0 k)
  | |- context [b0 =? ?k] => destruct (Z.eqb_spec b0 k)
  end; try lia.
  all: cbv [utf8.as_ utf8.xx utf8.s1 utf8.s2 utf8.s3 utf8.s4 utf8.s5 utf8.s6
            utf8.s7 utf8.RuneError utf8.mask2 utf8.mask3 utf8.mask4
            utf8.maskx utf8.locb utf8.hicb].
  all: eval_closed.
  all: try reflexivity.
  all: match goal with |- context [?n' <? ?k] => destruct (n' <? k) end;
       [reflexivity|].
  all: repeat first
    [ reflexivity
    | match goal with
      | |- context [match ?r with EmptyString => _ | String _ _ => _ end] =>
          is_var r; destruct r
      | |- context [utf8.out_of ?a ?b (byte_val ?c)] =>
          let O := fresh "O" in
          destruct (utf8.out_of a b (byte_val c)) eqn:O;
          [| apply out_of_false in O; pose proof (byte_val_range c)]
      end ].
  all: cbn [fst]; apply (Z.lt_le_trans _ (2 ^ 7)); [reflexivity|]; lor_bound.
Qed.

Lemma byte_val_to_byte (v : Z) : 0 <= v < 256 -> byte_val (to_byte v) = v.
Proof.
  intros H. unfold byte_val, to_byte.
  change 0xFF with (Z.ones 8). rewrite Z.land_ones by lia.
  rewrite Z.mod_small by lia.
  rewrite N_ascii_embedding by lia. lia.
Qed.

(** ** The name transform *)

Section NameTransform.

Variable lowerCase : Z -> Z.

Lemma string_of_rune_nonempty (r : Z) : utf8.string_of_rune r <> "".
Proof.
  unfold utf8.string_of_rune, utf8.enc3.
  repeat match goal with
  | |- context [if ?b then _ else _] => destruct b
  end; discriminate.
Qed.

(** The index [i + 1] of the slice is within the string. *)
Lemma toLowerFirst_slice_in_range (c : ascii) (t : string) :
  (0 + 1 <= String.length (String c t))%nat.
Proof. simpl. lia. Qed.

Lemma toLowerFirst_cons (c : ascii) (t : string) :
  toLowerFirst lowerCase (String c t) =
  utf8.string_of_rune
    (unicode.ToLower lowerCase (fst (utf8.DecodeRuneInString (String c t))))
  +:+ t.
Proof. reflexivity. Qed.

Lemma ToLower_ascii (r : Z) :
  0 <= r <= 0x7F ->
  0 <= unicode.ToLower lowerCase r <= 0x7F /\
  unicode.ToLower lowerCase (unicode.ToLower lowerCase r)
  = unicode.ToLower lowerCase r.
Proof.
  intros H. unfold unicode.ToLower, unicode.MaxASCII.
  destruct (Z.leb_spec r 127); [|lia].
  destruct (Z.leb_spec 65 r), (Z.leb_spec r 90); cbn [andb].
  - destruct (Z.leb_spec (r + (97 - 65)) 127); [|lia].
    destruct (Z.leb_spec 65 (r + (97 - 65))),
             (Z.leb_spec (r + (97 - 65)) 90); cbn [andb]; lia.
  - destruct (Z.leb_spec r 127); [|lia].
    destruct (Z.leb_spec 65 r), (Z.leb_spec r 90); cbn [andb]; lia.
  - destruct (Z.leb_spec r 127); [|lia].
    destruct (Z.leb_spec 65 r), (Z.leb_spec r 90); cbn [andb]; lia.
  - lia.
Qed.

Lemma string_of_rune_ascii (r : Z) :
  0 <= r <= 0x7F -> utf8.string_of_rune r = String (to_byte r) "".
Proof.
  intros H. unfold utf8.string_of_rune, utf8.rune1Max.
  destruct (Z.leb_spec 0 r), (Z.leb_spec r 127); (reflexivity || lia).
Qed.

(** On a name that starts with an ASCII byte the transform replaces
    that byte by its lower-case form and keeps the rest. *)
Lemma toLowerFirst_ascii (c : ascii) (t : string) :
  byte_val c <= 0x7F ->
  toLowerFirst lowerCase (String c t)
  = String (to_byte (unicode.ToLower lowerCase (byte_val c))) t.
Proof.
  intros H. pose proof (byte_val_range c).
  rewrite toLowerFirst_cons, decode_ascii by exact H. cbn [fst].
  rewrite string_of_rune_ascii by (apply ToLower_ascii; lia).
  reflexivity.
Qed.

(** C10: on a string whose first code point is an ASCII letter,
    applying [toLowerFirst] twice gives what applying it once
    gives. *)
Theorem toLowerFirst_idempotent_on_ascii_letter (s : string) :
  is_ascii_letter (fst (utf8.DecodeRuneInString s)) = true ->
  toLowerFirst lowerCase (toLowerFirst lowerCase s)
  = toLowerFirst lowerCase s.
Proof.
  intros Hletter. destruct s as [|c t]; [discriminate Hletter|].
  pose proof (byte_val_range c) as Hc.
  assert (Hascii : byte_val c <= 0x7F).
  { destruct (Z.le_gt_cases (byte_val c) 0x7F) as [|Hhigh]; [assumption|].
    apply (decode_non_ascii c t) in Hhigh.
    unfold is_ascii_letter in Hletter.
    apply orb_true_iff in Hletter.
    rewrite !andb_true_iff, !Z.leb_le in Hletter. lia. }
  rewrite toLowerFirst_ascii by exact Hascii.
  destruct (ToLower_ascii (byte_val c)) as [Hrange Hidem]; [lia|].
  rewrite toLowerFirst_ascii by (rewrite byte_val_to_byte by lia; lia).
  rewrite byte_val_to_byte by lia. now rewrite Hidem.
Qed.

(** C3, as the code has it: the empty name is mapped to the empty
    string and no error is signalled; a non-empty name is never
    mapped to the empty string. *)
Theorem toLowerFirst_empty_iff_empty :
  toLowerFirst lowerCase "" = "" /\
  forall s : string, s <> "" -> toLowerFirst lowerCase s <> "".
Proof.
  split; [reflexivity|].
  intros [|c t] Hs; [congruence|].
  rewrite toLowerFirst_cons. intros E.
  destruct (utf8.string_of_rune _) eqn:R; [|discriminate E].
  now apply string_of_rune_nonempty in R.
Qed.

(** C2, at a name whose first code point takes two bytes: the code
    keeps the input from its second byte on, so the continuation
    byte [0x89] of the first code point stays in the result, which
    therefore differs from the lower-cased first code point followed
    by the rest of the name. *)
Theorem toLowerFirst_keeps_continuation_byte :
  toLowerFirst lowerCase Sample.Elan
  = utf8.string_of_rune (lowerCase 0xC9) +:+ String (ascii_of_N 0x89) "lan"
  /\ toLowerFirst_spec lowerCase Sample.Elan
     = utf8.string_of_rune (lowerCase 0xC9) +:+ "lan"
  /\ toLowerFirst lowerCase Sample.Elan
     <> toLowerFirst_spec lowerCase Sample.Elan.
Proof.
  assert (H1 : toLowerFirst lowerCase Sample.Elan
    = utf8.string_of_rune (lowerCase 0xC9) +:+ String (ascii_of_N 0x89) "lan")
    by reflexivity.
  assert (H2 : toLowerFirst_spec lowerCase Sample.Elan
    = utf8.string_of_rune (lowerCase 0xC9) +:+ "lan") by reflexivity.
  split; [exact H1 | split; [exact H2 |]].
  rewrite H1, H2. intros E. apply append_inv_head in E. discriminate E.
Qed.

End NameTransform.

Lemma toLowerFirst_idempotent_on_ascii_letter_witness :
  is_ascii_letter (fst (utf8.DecodeRuneInString "HTTPClient")) = true /\
  toLowerFirst Sample.lowerCase (toLowerFirst Sample.lowerCase "HTTPClient")
  = "hTTPClient".
Proof.
  split; [reflexivity|].
  rewrite (toLowerFirst_idempotent_on_ascii_letter Sample.lowerCase "HTTPClient");
    reflexivity.
Defined.

Lemma toLowerFirst_empty_iff_empty_witness :
  "Foo" <> "" /\ toLowerFirst Sample.lowerCase "Foo" <> "".
Proof.
  split; [discriminate|].
  apply (proj2 (toLowerFirst_empty_iff_empty Sample.lowerCase)).
  discriminate.
Defined.

(** C3, as the specification has it, fails: on the empty name the code
    returns the empty string, and nothing reports an invalid name. *)
Lemma toLowerFirst_empty_name_returns_empty :
  toLowerFirst Sample.lowerCase "" = "".
Proof. reflexivity. Qed.

(** With the Latin-1 table, [Élan] becomes the bytes [C3 A9 89 6C 61 6E]:
    the first code point of the result is [é], but what follows it is
    not what follows [É] in the input. *)
Example toLowerFirst_Elan_latin1 :
  toLowerFirst Sample.lowerCase Sample.Elan
  = String (ascii_of_N 0xC3) (String (ascii_of_N 0xA9)
      (String (ascii_of_N 0x89) "lan"))
  /\ utf8.DecodeRuneInString (toLowerFirst Sample.lowerCase Sample.Elan)
     = (0xE9, 2)
  /\ utf8.DecodeRuneInString Sample.Elan = (0xC9, 2)
  /\ slice_from 2 (toLowerFirst Sample.lowerCase Sample.Elan)
     = String (ascii_of_N 0x89) "lan"
  /\ slice_from 2 Sample.Elan = "lan".
Proof. repeat split. Qed.

Example toLowerFirst_examples :
  toLowerFirst Sample.lowerCase "Foo" = "foo"
  /\ toLowerFirst Sample.lowerCase "HTTPClient" = "hTTPClient".
Proof. split; reflexivity. Qed.

(** ** The collector *)

Section Collector.

Implicit Types (l : linter) (sym : Ident).

Lemma set_symbols_same l : set_symbols l (symbols l) = l.
Proof. now destruct l. Qed.

(** [collectSym] appends the symbol when [retained] holds and leaves
    the linter alone otherwise. *)
Lemma collectSym_eq l sym :
  collectSym l sym
  = set_symbols l (symbols l ++ List.filter (retained l) [sym]).
Proof.
  unfold collectSym, retained. cbn [List.filter].
  destruct (negb (is_nil (unexport l)) || map_get (unexport l) (Name sym));
    cbn [andb];
    [destruct (map_get (skip l) (Name sym)); cbn [negb] |];
    rewrite ?app_nil_r, ?set_symbols_same; reflexivity.
Qed.

(** A loop whose body appends the retained ones among [ids l x]
    appends the retained ones among all of them, in order. *)
Lemma fold_collect {X : Type} (step : linter -> X -> linter)
    (ids : linter -> X -> list Ident) :
  (forall l v, ids (set_symbols l v) = ids l) ->
  (forall l x,
     step l x
     = set_symbols l (symbols l ++ List.filter (retained l) (ids l x))) ->
  forall xs l,
    fold_left step xs l
    = set_symbols l
        (symbols l ++ List.filter (retained l) (flat_map (ids l) xs)).
Proof.
  intros Hids Hstep xs. induction xs as [|x xs IH]; intros l; cbn [fold_left flat_map].
  - cbn [List.filter]. now rewrite app_nil_r, set_symbols_same.
  - rewrite IH, Hstep, Hids. cbn [symbols set_symbols].
    rewrite List.filter_app, app_assoc. reflexivity.
Qed.

Lemma flat_map_singleton {A : Type} (xs : list A) :
  flat_map (fun x => [x]) xs = xs.
Proof.
  induction xs as [|x xs IH]; [reflexivity|].
  cbn [flat_map app]. now rewrite IH.
Qed.

Lemma collectSpec_eq l spec :
  collectSpec l spec
  = set_symbols l (symbols l ++ List.filter (retained l) (spec_idents spec)).
Proof.
  destruct spec as [|names|name]; cbn [collectSpec spec_idents].
  - cbn [List.filter]. now rewrite app_nil_r, set_symbols_same.
  - rewrite (fold_collect collectSym (fun _ sym => [sym]));
      [| reflexivity | exact collectSym_eq].
    now rewrite flat_map_singleton.
  - apply collectSym_eq.
Qed.

Lemma collectDecl_eq l decl :
  collectDecl l decl
  = set_symbols l (symbols l ++ List.filter (retained l) (decl_idents decl)).
Proof.
  destruct decl as [|specs|name body]; cbn [collectDecl decl_idents].
  - cbn [List.filter]. now rewrite app_nil_r, set_symbols_same.
  - apply (fold_collect collectSpec (fun _ => spec_idents));
      [reflexivity | exact collectSpec_eq].
  - apply collectSym_eq.
Qed.

Lemma collectFileSymbols_eq l f :
  collectFileSymbols l f
  = set_symbols l (symbols l ++ List.filter (retained l) (top_level_idents f)).
Proof.
  apply (fold_collect collectDecl (fun _ => decl_idents));
    [reflexivity | exact collectDecl_eq].
Qed.

Lemma collectFile_eq l f :
  collectFile l f
  = set_symbols l
      (symbols l ++ List.filter (retained l)
         (if has_filename (fset l) f then top_level_idents f else [])).
Proof.
  unfold collectFile, has_filename.
  destruct (String.eqb (Filename (fset l (Package f))) ""); cbn [negb].
  - cbn [List.filter]. now rewrite app_nil_r, set_symbols_same.
  - apply collectFileSymbols_eq.
Qed.

Lemma flat_map_if_filter {A B : Type} (p : A -> bool) (g : A -> list B)
    (xs : list A) :
  flat_map (fun x => if p x then g x else []) xs
  = flat_map g (List.filter p xs).
Proof.
  induction xs as [|x xs IH]; [reflexivity|].
  cbn [flat_map List.filter]. destruct (p x); cbn [flat_map app]; now rewrite IH.
Qed.

(** The whole collection: the retained ones among the top-level
    identifiers of the files that have a file name, in the order of
    the packages, files and declarations. *)
Lemma collectSymbols_eq l :
  collectSymbols l
  = set_symbols l
      (symbols l
       ++ List.filter (retained l) (visited_idents (fset l) (pkgs l))).
Proof.
  unfold collectSymbols, visited_idents.
  rewrite (fold_collect
             (fun l pkg => fold_left collectFile (Syntax pkg) l)
             (fun l pkg =>
                flat_map top_level_idents
                         (List.filter (has_filename (fset l)) (Syntax pkg))));
    [reflexivity | reflexivity |].
  intros l' pkg.
  rewrite (fold_collect collectFile
             (fun l f => if has_filename (fset l) f
                         then top_level_idents f else []));
    [| reflexivity | exact collectFile_eq].
  now rewrite flat_map_if_filter.
Qed.

Lemma top_level_idents_erase_bodies f :
  top_level_idents (erase_bodies f) = top_level_idents f.
Proof.
  unfold top_level_idents, erase_bodies. cbn [Decls].
  induction (Decls f) as [|d ds IH]; [reflexivity|].
  cbn [map flat_map]. rewrite IH. now destruct d.
Qed.

Lemma retained_not_skipped l sym :
  retained l sym = true -> map_get (skip l) (Name sym) = false.
Proof.
  unfold retained. rewrite andb_true_iff, negb_true_iff. tauto.
Qed.

(** With a map that is not nil for [l.unexport], and [init] makes it
    so, the test of [collectSym] looks at the skip set only. *)
Lemma retained_unexport_not_nil l sym :
  is_nil (unexport l) = false ->
  retained l sym = negb (map_get (skip l) (Name sym)).
Proof. unfold retained. now intros ->. Qed.

End Collector.

(** C9: the collector takes its candidates from the top-level
    declarations (value specs, type specs, function and method
    declarations) of the files that have a file name, and from nowhere
    else: what a function body declares changes nothing, and a file
    whose position has an empty file name is passed over. *)
Theorem collectSymbols_top_level_only :
  (forall l,
     symbols (collectSymbols l)
     = (symbols l
        ++ List.filter (retained l) (visited_idents (fset l) (pkgs l)))%list)
  /\ (forall l f,
        collectFileSymbols l (erase_bodies f) = collectFileSymbols l f)
  /\ (forall l f,
        Filename (fset l (Package f)) = "" -> collectFile l f = l).
Proof.
  split; [|split].
  - intros l. now rewrite collectSymbols_eq.
  - intros l f.
    now rewrite !collectFileSymbols_eq, top_level_idents_erase_bodies.
  - intros l f H. unfold collectFile. now rewrite H.
Qed.

Lemma collectSymbols_top_level_only_witness :
  Filename (fset Sample.loaded (Package Sample.synthetic)) = ""
  /\ collectFile Sample.loaded Sample.synthetic = Sample.loaded.
Proof.
  split; [reflexivity|].
  apply (proj2 (proj2 collectSymbols_top_level_only)). reflexivity.
Defined.

(** The sample package: the type declared inside [Qux] and the one of
    the file without a name are not collected. *)
Example collectSymbols_sample :
  symbols (collectSymbols Sample.loaded)
  = [Sample.Foo; Sample.bar; Sample.Baz; Sample.Qux].
Proof. reflexivity. Qed.

(** C1, at the unexport set [{Bar}] and the empty skip set, as
    [init] and [parseFlags] build them from [-unexport=Bar]: the
    candidate [Foo], which is not in the unexport set, is retained. *)
Theorem collectSym_retains_outside_unexport_set :
  (init ;; parseFlags Sample.flags_Bar) (zero_linter, Sample.proc0)
  = Some (tt, (Sample.configured, Sample.proc0))
  /\ map_get (unexport Sample.configured) "Bar" = true
  /\ map_get (unexport Sample.configured) "Foo" = false
  /\ map_get (skip Sample.configured) "Foo" = false
  /\ symbols (collectSym Sample.configured Sample.Foo) = [Sample.Foo].
Proof.
  split; [vm_compute; reflexivity|].
  repeat split.
Qed.

(** ** The invoker *)

Section Invoker.

Variable lowerCase : Z -> Z.
Variable upperExcludingLatin : Z -> bool.
Variable Position_String : Position -> string.
Variable World : Type.
Variable CombinedOutput : World -> list string -> string * bool * World.

Implicit Types (l : linter) (p : Proc World) (sym : Ident).

Local Abbreviation tryUnexport_ :=
  (tryUnexport lowerCase Position_String CombinedOutput).
Local Abbreviation unexportSymbol_ :=
  (unexportSymbol lowerCase upperExcludingLatin Position_String
                  CombinedOutput).
Local Abbreviation unexportSymbols_ :=
  (unexportSymbols lowerCase upperExcludingLatin Position_String
                   CombinedOutput).
Local Abbreviation argv_of l := (rename_argv lowerCase (fset l)).
Local Abbreviation exported :=
  (fun sym => IsExported upperExcludingLatin (Name sym)).

Lemma set_success_same l : set_success l (success l) = l.
Proof. now destruct l. Qed.

(** [prettyError] only writes to standard output. *)
Lemma prettyError_run s l p :
  exists text,
    prettyError s (l, p)
    = Some (category_text (classify_spec s), (l, printed p text)).
Proof.
  unfold prettyError. rewrite classify_spec_unfold.
  repeat (destruct (Contains s _);
          [exists ""; unfold printed; rewrite append_nil_r;
           now destruct p |]).
  eexists. reflexivity.
Qed.

(** A refused rename: one command, the output classified, nothing
    recorded. *)
Lemma tryUnexport_refused l p pos name out w :
  CombinedOutput (world p) (argv_of l {| NamePos := pos; Name := name |})
  = (out, true, w) ->
  exists text,
    tryUnexport_ pos name (l, p)
    = Some ("impossible: " +:+ category_text (classify_spec out),
            (l, printed (executed p (argv_of l {| NamePos := pos;
                                                  Name := name |}) w)
                        text)).
Proof.
  intros H.
  destruct (prettyError_run out l
              (executed p (argv_of l {| NamePos := pos; Name := name |}) w))
    as [text E].
  exists text. unfold tryUnexport, mbind, M_bind, get_linter, exec.
  cbn [fst snd]. unfold rename_argv in H, E. cbn [NamePos Name] in H, E.
  rewrite H. unfold rename_argv. cbn [NamePos Name].
  rewrite E. reflexivity.
Qed.

(** An accepted rename: one command, one entry written. *)
Lemma tryUnexport_accepted l p pos name out w g :
  CombinedOutput (world p) (argv_of l {| NamePos := pos; Name := name |})
  = (out, false, w) ->
  success l = Some g ->
  tryUnexport_ pos name (l, p)
  = Some ("success",
          (set_success l
             (Some (<[success_key Position_String (fset l) pos name
                      := success_text lowerCase name]> g)),
           executed p (argv_of l {| NamePos := pos; Name := name |}) w)).
Proof.
  intros H Hg.
  unfold tryUnexport, mbind, M_bind, get_linter, exec, record_success.
  cbn [fst snd]. unfold rename_argv in H. cbn [NamePos Name] in H.
  rewrite H. cbn [fst snd]. rewrite Hg. reflexivity.
Qed.

(** One turn of the loop on a symbol that is not exported does
    nothing at all. *)
Lemma unexportSymbol_not_exported sym (st : linter * Proc World) :
  IsExported upperExcludingLatin (Name sym) = false ->
  unexportSymbol_ sym st = Some (tt, st).
Proof. intros H. unfold unexportSymbol. now rewrite H. Qed.

(** One turn of the loop on an exported symbol runs one command and
    touches nothing of the linter but the success map, which stays
    a map. *)
Lemma unexportSymbol_exported sym l p :
  IsExported upperExcludingLatin (Name sym) = true ->
  is_nil (success l) = false ->
  exists m p',
    unexportSymbol_ sym (l, p) = Some (tt, (set_success l m, p'))
    /\ is_nil m = false
    /\ execs p' = (execs p ++ [argv_of l sym])%list.
Proof.
  intros Hexp Hmap. unfold unexportSymbol. rewrite Hexp.
  unfold mbind, M_bind, print. cbn [fst snd].
  set (p1 := printed p _).
  destruct (CombinedOutput (world p1)
              (argv_of l {| NamePos := NamePos sym; Name := Name sym |}))
    as [[out [|]] w] eqn:Hrun.
  - destruct (tryUnexport_refused l p1 _ _ _ _ Hrun) as [text E].
    rewrite E. exists (success l). eexists.
    unfold Println, print. cbn [fst snd].
    rewrite set_success_same. split; [reflexivity|]. split; [exact Hmap|].
    destruct sym. reflexivity.
  - destruct (success l) as [g|] eqn:Hg; [|discriminate Hmap].
    rewrite (tryUnexport_accepted l p1 _ _ _ _ g Hrun Hg).
    eexists. eexists.
    unfold Println, print. cbn [fst snd].
    split; [reflexivity|]. split; [reflexivity|].
    destruct sym. reflexivity.
Qed.

(** The loop: one command for each exported symbol, in the order of
    the list, whatever the renamer answers. *)
Lemma for_each_unexportSymbol syms l p :
  is_nil (success l) = false ->
  exists m p',
    for_each syms unexportSymbol_ (l, p) = Some (tt, (set_success l m, p'))
    /\ is_nil m = false
    /\ execs p'
       = (execs p ++ map (argv_of l) (List.filter exported syms))%list.
Proof.
  revert l p. induction syms as [|sym syms IH]; intros l p Hmap.
  - exists (success l), p. cbn [for_each List.filter map].
    rewrite set_success_same, app_nil_r. auto.
  - cbn [for_each List.filter].
    unfold mbind, M_bind.
    destruct (IsExported upperExcludingLatin (Name sym)) eqn:Hexp.
    + destruct (unexportSymbol_exported sym l p Hexp Hmap)
        as (m1 & p1 & E1 & Hm1 & Hx1).
      rewrite E1.
      destruct (IH (set_success l m1) p1 Hm1) as (m2 & p2 & E2 & Hm2 & Hx2).
      exists m2, p2. split; [exact E2 | split; [exact Hm2|]].
      rewrite Hx2, Hx1. cbn [map]. now rewrite <- app_assoc.
    + rewrite (unexportSymbol_not_exported sym (l, p) Hexp).
      apply IH, Hmap.
Qed.

Lemma unexportSymbols_run l p :
  is_nil (success l) = false ->
  exists m p',
    unexportSymbols_ (l, p) = Some (tt, (set_success l m, p'))
    /\ is_nil m = false
    /\ execs p'
       = (execs p
          ++ map (argv_of l) (List.filter exported (symbols l)))%list.
Proof. intros H. exact (for_each_unexportSymbol (symbols l) l p H). Qed.

Lemma for_each_none_exported syms (st : linter * Proc World) :
  (forall sym, In sym syms ->
               IsExported upperExcludingLatin (Name sym) = false) ->
  for_each syms unexportSymbol_ st = Some (tt, st).
Proof.
  induction syms as [|sym syms IH]; intros H; [reflexivity|].
  cbn [for_each]. unfold mbind, M_bind.
  rewrite unexportSymbol_not_exported by (apply H; now left).
  apply IH. intros s Hs. apply H. now right.
Qed.

Lemma IsExported_ascii_lower (c : ascii) (t : string) :
  97 <= byte_val c <= 122 ->
  IsExported upperExcludingLatin (String c t) = false.
Proof.
  intros H. unfold IsExported. rewrite decode_ascii by lia. cbn [fst].
  unfold unicode.IsUpper, unicode.MaxLatin1, unicode.latin1_upper.
  destruct (Z.leb_spec 0 (byte_val c)); [|lia].
  destruct (Z.leb_spec (byte_val c) 255); [|lia]. cbn [andb].
  destruct (Z.leb_spec (byte_val c) 90); [lia|].
  destruct (Z.leb_spec 192 (byte_val c)); [lia|].
  destruct (Z.leb_spec 216 (byte_val c)); [lia|].
  now rewrite !andb_false_r.
Qed.

(** C5: a candidate whose name is in the skip set is not added to
    the symbol list, whatever the unexport set is; so, from an empty
    symbol list, collecting and then unexporting runs the renamer on
    symbols outside the skip set only. *)
Theorem skip_wins_over_unexport :
  (forall l sym,
     map_get (skip l) (Name sym) = true -> collectSym l sym = l)
  /\ (forall l p,
        symbols l = [] ->
        is_nil (success l) = false ->
        exists m p',
          (update collectSymbols ;; unexportSymbols_) (l, p)
          = Some (tt, (set_success (collectSymbols l) m, p'))
          /\ execs p'
             = (execs p
                ++ map (argv_of l)
                     (List.filter exported (symbols (collectSymbols l))))%list
          /\ forall sym,
               In sym (symbols (collectSymbols l)) ->
               map_get (skip l) (Name sym) = false).
Proof.
  split.
  - intros l sym H. unfold collectSym. rewrite H. cbn [negb].
    now destruct (_ || _).
  - intros l p Hnone Hmap.
    assert (Hcol := collectSymbols_eq l).
    destruct (unexportSymbols_run (collectSymbols l) p)
      as (m & p' & E & _ & Hx).
    { rewrite Hcol. exact Hmap. }
    exists m, p'. split; [exact E | split].
    + rewrite Hx. now rewrite Hcol at 1.
    + intros sym Hin. rewrite Hcol, Hnone in Hin. cbn [symbols set_symbols app] in Hin.
      apply filter_In in Hin. now apply retained_not_skipped.
Qed.

(** C6: the loop does nothing for a symbol that is not exported, a
    name that starts with a lower-case ASCII letter being one; the
    commands it runs are those of the exported symbols; and with no
    exported symbol it runs none and prints nothing. *)
Theorem unexportSymbols_exported_only :
  (forall sym (st : linter * Proc World),
     IsExported upperExcludingLatin (Name sym) = false ->
     unexportSymbol_ sym st = Some (tt, st))
  /\ (forall c t,
        97 <= byte_val c <= 122 ->
        IsExported upperExcludingLatin (String c t) = false)
  /\ (forall l p,
        is_nil (success l) = false ->
        exists m p',
          unexportSymbols_ (l, p) = Some (tt, (set_success l m, p'))
          /\ execs p'
             = (execs p
                ++ map (argv_of l) (List.filter exported (symbols l)))%list)
  /\ (forall l p,
        (forall sym, In sym (symbols l) ->
                     IsExported upperExcludingLatin (Name sym) = false) ->
        unexportSymbols_ (l, p) = Some (tt, (l, p))).
Proof.
  split; [exact unexportSymbol_not_exported |].
  split; [exact IsExported_ascii_lower |].
  split.
  - intros l p H.
    destruct (unexportSymbols_run l p H) as (m & p' & E & _ & Hx).
    eauto.
  - intros l p H. exact (for_each_none_exported (symbols l) (l, p) H).
Qed.

(** C7: a refused rename is one command and leaves the linter, its
    success map included, as it was; an accepted one is one command
    and writes one entry, from the position and the name to
    [name -> new name]; and the loop runs one command for each
    exported symbol of the list, in order, whatever was refused
    before. *)
Theorem tryUnexport_once_per_candidate :
  (forall l p pos name out w,
     CombinedOutput (world p) (argv_of l {| NamePos := pos; Name := name |})
     = (out, true, w) ->
     exists status p',
       tryUnexport_ pos name (l, p) = Some (status, (l, p'))
       /\ execs p'
          = (execs p ++ [argv_of l {| NamePos := pos; Name := name |}])%list
       /\ world p' = w)
  /\ (forall l p pos name out w g,
        CombinedOutput (world p)
          (argv_of l {| NamePos := pos; Name := name |})
        = (out, false, w) ->
        success l = Some g ->
        tryUnexport_ pos name (l, p)
        = Some ("success",
                (set_success l
                   (Some (<[Position_String (fset l pos) +:+ "/" +:+ name
                            := name +:+ " -> " +:+ toLowerFirst lowerCase name]>
                          g)),
                 executed p (argv_of l {| NamePos := pos; Name := name |})
                          w)))
  /\ (forall l p,
        is_nil (success l) = false ->
        exists m p',
          unexportSymbols_ (l, p) = Some (tt, (set_success l m, p'))
          /\ execs p'
             = (execs p
                ++ map (argv_of l) (List.filter exported (symbols l)))%list).
Proof.
  split; [|split].
  - intros l p pos name out w H.
    destruct (tryUnexport_refused l p pos name out w H) as [text E].
    eexists. eexists. split; [exact E|]. split; reflexivity.
  - intros l p pos name out w g H Hg.
    exact (tryUnexport_accepted l p pos name out w g H Hg).
  - intros l p H.
    destruct (unexportSymbols_run l p H) as (m & p' & E & _ & Hx).
    eauto.
Qed.

End Invoker.

Lemma skip_wins_over_unexport_witness :
  map_get (skip Sample.skipping) (Name Sample.Foo) = true
  /\ collectSym Sample.skipping Sample.Foo = Sample.skipping
  /\ exists m p',
       (update collectSymbols ;;
        unexportSymbols Sample.lowerCase Sample.upperExcludingLatin
          Sample.Position_String Sample.CombinedOutput)
         (Sample.skipping, Sample.proc0)
       = Some (tt, (set_success (collectSymbols Sample.skipping) m, p'))
       /\ execs p' = [["gorename"; "-offset"; "a.go:#40"; "-to"; "baz"];
                      ["gorename"; "-offset"; "a.go:#60"; "-to"; "qux"]].
Proof.
  destruct (skip_wins_over_unexport Sample.lowerCase
              Sample.upperExcludingLatin Sample.Position_String unit
              Sample.CombinedOutput) as [Hadd Hrun].
  split; [reflexivity|]. split; [apply Hadd; reflexivity|].
  destruct (Hrun Sample.skipping Sample.proc0 eq_refl eq_refl)
    as (m & p' & E & Hx & _).
  exists m, p'. split; [exact E | exact Hx].
Defined.

Lemma unexportSymbols_exported_only_witness :
  IsExported Sample.upperExcludingLatin (Name Sample.bar) = false
  /\ unexportSymbol Sample.lowerCase Sample.upperExcludingLatin
       Sample.Position_String Sample.CombinedOutput Sample.bar
       (Sample.collected, Sample.proc0)
     = Some (tt, (Sample.collected, Sample.proc0))
  /\ (exists m p',
        unexportSymbols Sample.lowerCase Sample.upperExcludingLatin
          Sample.Position_String Sample.CombinedOutput
          (Sample.collected, Sample.proc0)
        = Some (tt, (set_success Sample.collected m, p'))
        /\ execs p' = [["gorename"; "-offset"; "a.go:#20"; "-to"; "foo"];
                       ["gorename"; "-offset"; "a.go:#40"; "-to"; "baz"];
                       ["gorename"; "-offset"; "a.go:#60"; "-to"; "qux"]])
  /\ unexportSymbols Sample.lowerCase Sample.upperExcludingLatin
       Sample.Position_String Sample.CombinedOutput
       (set_symbols Sample.loaded [Sample.bar], Sample.proc0)
     = Some (tt, (set_symbols Sample.loaded [Sample.bar], Sample.proc0)).
Proof.
  destruct (unexportSymbols_exported_only Sample.lowerCase
              Sample.upperExcludingLatin Sample.Position_String unit
              Sample.CombinedOutput) as (Hone & Hlower & Hrun & Hnone).
  split; [apply (Hlower "b"%char "ar"); vm_compute; split; discriminate|].
  split; [apply Hone; reflexivity|].
  split.
  - destruct (Hrun Sample.collected Sample.proc0 eq_refl)
      as (m & p' & E & Hx).
    exists m, p'. split; [exact E | exact Hx].
  - apply Hnone. intros sym [<-|[]]. reflexivity.
Defined.

Lemma tryUnexport_once_per_candidate_witness :
  (exists status p',
     tryUnexport Sample.lowerCase Sample.Position_String
       Sample.CombinedOutput 40 "Baz" (Sample.collected, Sample.proc0)
     = Some (status, (Sample.collected, p'))
     /\ execs p' = [["gorename"; "-offset"; "a.go:#40"; "-to"; "baz"]])
  /\ tryUnexport Sample.lowerCase Sample.Position_String
       Sample.CombinedOutput 20 "Foo" (Sample.collected, Sample.proc0)
     = Some ("success",
             (set_success Sample.collected
                (Some {[ "a.go:3:1/Foo" := "Foo -> foo" ]}),
              executed Sample.proc0
                ["gorename"; "-offset"; "a.go:#20"; "-to"; "foo"] tt))
  /\ exists m p',
       unexportSymbols Sample.lowerCase Sample.upperExcludingLatin
         Sample.Position_String Sample.CombinedOutput
         (Sample.collected, Sample.proc0)
       = Some (tt, (set_success Sample.collected m, p'))
       /\ length (execs p') = 3%nat.
Proof.
  destruct (tryUnexport_once_per_candidate Sample.lowerCase
              Sample.upperExcludingLatin Sample.Position_String unit
              Sample.CombinedOutput) as (Hrefused & Haccepted & Hloop).
  split; [|split].
  - destruct (Hrefused Sample.collected Sample.proc0 40 "Baz"
                "renaming this func would cause breaking references" tt
                eq_refl) as (status & p' & E & Hx & _).
    exists status, p'. split; [exact E | exact Hx].
  - exact (Haccepted Sample.collected Sample.proc0 20 "Foo" "" tt ∅
             eq_refl eq_refl).
  - destruct (Hloop Sample.collected Sample.proc0 eq_refl)
      as (m & p' & E & Hx).
    exists m, p'. split; [exact E | now rewrite Hx].
Defined.

(** The end-to-end scenario of the sample package: [Foo] is renamed,
    [bar] is not tried, [Baz] is refused for breaking references and
    [Qux] for a reason the classifier does not know. *)
Example unexportSymbols_sample :
  unexportSymbols Sample.lowerCase Sample.upperExcludingLatin
    Sample.Position_String Sample.CombinedOutput
    (Sample.collected, Sample.proc0)
  = Some (tt,
      (set_success Sample.collected (Some {[ "a.go:3:1/Foo" := "Foo -> foo" ]}),
       {| stdout :=
            "trying to unexport Foo... (success)" +:+ newline
            +:+ "trying to unexport Baz... (impossible: would break package clients)"
            +:+ newline
            +:+ "trying to unexport Qux... unknown error:  exit status 2"
            +:+ newline +:+ "(impossible: unknown error)" +:+ newline;
          execs := [["gorename"; "-offset"; "a.go:#20"; "-to"; "foo"];
                    ["gorename"; "-offset"; "a.go:#40"; "-to"; "baz"];
                    ["gorename"; "-offset"; "a.go:#60"; "-to"; "qux"]];
          world := tt |})).
Proof. vm_compute. reflexivity. Qed.

(** * Further properties *)

(** ** Flags *)

Lemma Split_comma_not_nil (s : string) : Split_comma s <> [].
Proof.
  destruct s as [|c t]; cbn [Split_comma]; [discriminate|].
  destruct (Ascii.eqb c ","); [discriminate|].
  destruct (Split_comma t); discriminate.
Qed.

Lemma concat_cons_cons (sep x y : string) (ys : list string) :
  String.concat sep (x :: y :: ys) = x +:+ sep +:+ String.concat sep (y :: ys).
Proof. reflexivity. Qed.

Lemma Split_comma_concat (s : string) :
  String.concat "," (Split_comma s) = s.
Proof.
  induction s as [|c t IH]; [reflexivity|].
  cbn [Split_comma].
  destruct (Ascii.eqb_spec c ",") as [->|Hc].
  - pose proof (Split_comma_not_nil t) as Hne.
    destruct (Split_comma t) as [|y ys] eqn:E; [congruence|].
    rewrite concat_cons_cons, IH. reflexivity.
  - pose proof (Split_comma_not_nil t) as Hne.
    destruct (Split_comma t) as [|y ys] eqn:E; [congruence|].
    destruct ys as [|z zs].
    + cbn [String.concat] in *. now rewrite IH.
    + rewrite concat_cons_cons in *. rewrite append_cons. now rewrite IH.
Qed.

Lemma Split_comma_no_comma (s piece : string) :
  In piece (Split_comma s) -> has_comma piece = false.
Proof.
  revert piece. induction s as [|c t IH]; intros piece; cbn [Split_comma].
  - intros [<-|[]]. reflexivity.
  - destruct (Ascii.eqb c ",") eqn:Hc.
    + intros [<-|Hin]; [reflexivity | now apply IH].
    + destruct (Split_comma t) as [|y ys].
      * intros [<-|[]]. cbn [has_comma]. now rewrite Hc.
      * intros [<-|Hin].
        -- cbn [has_comma]. rewrite Hc. apply IH. now left.
        -- apply IH. now right.
Qed.

Lemma mark_all_get (ks : list string) (g : gmap string bool) (k : string) :
  default false (mark_all ks g !! k) = true
  <-> In k ks \/ default false (g !! k) = true.
Proof.
  unfold mark_all. revert g. induction ks as [|x ks IH]; intros g; cbn [fold_left In].
  - tauto.
  - rewrite IH. destruct (decide (x = k)) as [->|Hne].
    + rewrite lookup_insert_eq. cbn. tauto.
    + rewrite lookup_insert_ne by exact Hne. split; [tauto|].
      intros [[E|H]|H]; [congruence | tauto | tauto].
Qed.

Section FlagsFacts.

Context {World : Type}.
Implicit Types (l : linter) (p : Proc World).

Lemma set_unexport_same l : set_unexport l (unexport l) = l.
Proof. now destruct l. Qed.

Lemma set_skip_same l : set_skip l (skip l) = l.
Proof. now destruct l. Qed.

Lemma for_each_mark_unexport ks l p g :
  unexport l = Some g ->
  for_each ks mark_unexport (l, p)
  = Some (tt, (set_unexport l (Some (mark_all ks g)), p)).
Proof.
  revert l g. induction ks as [|k ks IH]; intros l g Hg.
  - cbn [for_each mark_all fold_left]. rewrite <- Hg, set_unexport_same.
    reflexivity.
  - cbn [for_each]. unfold mbind, M_bind, mark_unexport at 1. cbn [fst snd].
    rewrite Hg. cbn [map_set].
    rewrite (IH (set_unexport l (Some (<[k:=true]> g))) (<[k:=true]> g) eq_refl).
    reflexivity.
Qed.

Lemma for_each_mark_skip ks l p g :
  skip l = Some g ->
  for_each ks mark_skip (l, p)
  = Some (tt, (set_skip l (Some (mark_all ks g)), p)).
Proof.
  revert l g. induction ks as [|k ks IH]; intros l g Hg.
  - cbn [for_each mark_all fold_left]. rewrite <- Hg, set_skip_same.
    reflexivity.
  - cbn [for_each]. unfold mbind, M_bind, mark_skip at 1. cbn [fst snd].
    rewrite Hg. cbn [map_set].
    rewrite (IH (set_skip l (Some (<[k:=true]> g))) (<[k:=true]> g) eq_refl).
    reflexivity.
Qed.

(** What [parseFlags] does on maps that are not nil. *)
Lemma parseFlags_run parsed l p gu gs :
  unexport l = Some gu ->
  skip l = Some gs ->
  parseFlags parsed (l, p)
  = Some (tt,
      (set_skip
         (set_unexport (set_flags l parsed)
            (Some (mark_all (Split_comma (unexport_flag parsed)) gu)))
         (Some (mark_all (Split_comma (skip_flag parsed)) gs)),
       p)).
Proof.
  intros Hu Hs. unfold parseFlags, mbind, M_bind, update, get_linter.
  cbn [fst snd flags set_flags].
  rewrite (for_each_mark_unexport _ (set_flags l parsed) p gu Hu).
  rewrite (for_each_mark_skip _
             (set_unexport (set_flags l parsed)
                (Some (mark_all (Split_comma (unexport_flag parsed)) gu)))
             p gs Hs).
  reflexivity.
Qed.

Lemma for_each_mark_nil (mark : string -> M World unit)
    (ks : list string) (st : linter * Proc World) :
  ks <> [] ->
  (forall k, mark k st = None) ->
  for_each ks mark st = None.
Proof.
  intros Hne Hmark. destruct ks as [|k ks]; [congruence|].
  cbn [for_each]. unfold mbind, M_bind. now rewrite Hmark.
Qed.

End FlagsFacts.

(** X1: after [init], [parseFlags] never fails; it stores the flags,
    marks in [l.unexport] exactly the comma-separated pieces of the
    [-unexport] flag and in [l.skip] exactly those of the [-skip] flag,
    starts from an empty success map, and leaves the symbols, the
    packages and the file set as they were. *)
Theorem init_parseFlags_marks_pieces {World : Type} (parsed : Flags)
    (l : linter) (p : Proc World) :
  exists l',
    (init ;; parseFlags parsed) (l, p) = Some (tt, (l', p))
    /\ flags l' = parsed
    /\ (forall k, map_get (unexport l') k = true
                  <-> In k (Split_comma (unexport_flag parsed)))
    /\ (forall k, map_get (skip l') k = true
                  <-> In k (Split_comma (skip_flag parsed)))
    /\ success l' = Some ∅
    /\ symbols l' = symbols l /\ pkgs l' = pkgs l /\ fset l' = fset l.
Proof.
  eexists. split.
  - unfold init, mbind, M_bind, update. cbn [fst snd].
    apply parseFlags_run; reflexivity.
  - cbn [flags unexport skip success symbols pkgs fset
         set_skip set_unexport set_flags set_success map_get].
    repeat split; try reflexivity.
    + intros H. apply mark_all_get in H. rewrite lookup_empty in H.
      destruct H as [H|H]; [exact H | discriminate H].
    + intros H. apply mark_all_get. now left.
    + intros H. apply mark_all_get in H. rewrite lookup_empty in H.
      destruct H as [H|H]; [exact H | discriminate H].
    + intros H. apply mark_all_get. now left.
Qed.

Lemma init_parseFlags_marks_pieces_witness :
  exists l',
    (init ;; parseFlags Scenario.flags_skip_Foo) (zero_linter, Sample.proc0)
    = Some (tt, (l', Sample.proc0))
    /\ map_get (skip l') "Qux" = true
    /\ map_get (unexport l') "" = true.
Proof.
  destruct (init_parseFlags_marks_pieces Scenario.flags_skip_Foo
              zero_linter Sample.proc0)
    as (l' & E & _ & Hunexport & Hskip & _).
  exists l'. split; [exact E|]. split.
  - apply Hskip. right. left. reflexivity.
  - apply Hunexport. left. reflexivity.
Defined.

(** X2: on a linter whose [unexport] or [skip] map is nil (no [init]
    before), [parseFlags] panics on its first write, whatever the
    flags are: even an empty flag has one piece to mark. *)
Theorem parseFlags_panics_on_nil_map {World : Type} (parsed : Flags)
    (l : linter) (p : Proc World) :
  is_nil (unexport l) = true \/ is_nil (skip l) = true ->
  parseFlags parsed (l, p) = None.
Proof.
  intros H. unfold parseFlags, mbind, M_bind, update, get_linter.
  cbn [fst snd flags set_flags].
  destruct (unexport l) as [gu|] eqn:Hu.
  - destruct H as [H|H]; [discriminate H|].
    rewrite (for_each_mark_unexport _ (set_flags l parsed) p gu Hu).
    apply for_each_mark_nil; [apply Split_comma_not_nil|].
    intros k. unfold mark_skip. cbn [fst skip set_unexport set_flags].
    destruct (skip l); [discriminate H | reflexivity].
  - rewrite (for_each_mark_nil mark_unexport);
      [reflexivity | apply Split_comma_not_nil |].
    intros k. unfold mark_unexport. cbn [fst unexport set_flags].
    now rewrite Hu.
Qed.

Lemma parseFlags_panics_on_nil_map_witness :
  is_nil (unexport zero_linter) = true
  /\ parseFlags Scenario.flags_default (zero_linter, Sample.proc0) = None.
Proof.
  split; [reflexivity|].
  apply parseFlags_panics_on_nil_map. left. reflexivity.
Defined.

(** X3: the names [parseFlags] marks for a flag are at least one, none
    has a comma in it, and joined by commas they give the flag back;
    so an empty flag marks one name, the empty one. *)
Theorem parseFlags_pieces (flag : string) :
  Split_comma flag <> []
  /\ (forall piece, In piece (Split_comma flag) -> has_comma piece = false)
  /\ String.concat "," (Split_comma flag) = flag
  /\ (flag = "" -> Split_comma flag = [""]).
Proof.
  split; [apply Split_comma_not_nil|].
  split; [apply Split_comma_no_comma|].
  split; [apply Split_comma_concat|].
  now intros ->.
Qed.

Lemma parseFlags_pieces_witness :
  In "Qux" (Split_comma "Foo,Qux") /\ has_comma "Qux" = false
  /\ Split_comma "" = [""].
Proof.
  destruct (parseFlags_pieces "Foo,Qux") as (_ & Hno & _ & _).
  destruct (parseFlags_pieces "") as (_ & _ & _ & Hempty).
  split; [right; left; reflexivity|].
  split; [apply Hno; right; left; reflexivity | apply Hempty; reflexivity].
Defined.

(** ** More on the collector *)

Lemma filter_none {A : Type} (f : A -> bool) (xs : list A) :
  (forall x, f x = false) -> List.filter f xs = [].
Proof.
  intros H. induction xs as [|x xs IH]; [reflexivity|].
  cbn [List.filter]. now rewrite H.
Qed.

(** X4: the collector changes nothing of the linter but the symbol
    list, and that list it only extends: what was collected before
    stays, in place, at the front. *)
Theorem collectSymbols_only_extends_symbols (l : linter) :
  fset (collectSymbols l) = fset l
  /\ pkgs (collectSymbols l) = pkgs l
  /\ flags (collectSymbols l) = flags l
  /\ unexport (collectSymbols l) = unexport l
  /\ skip (collectSymbols l) = skip l
  /\ success (collectSymbols l) = success l
  /\ exists added,
       symbols (collectSymbols l) = (symbols l ++ added)%list
       /\ forall sym, In sym added ->
                      In sym (visited_idents (fset l) (pkgs l)).
Proof.
  rewrite collectSymbols_eq. cbn.
  repeat (split; [reflexivity|]).
  eexists. split; [reflexivity|].
  intros sym H. now apply filter_In in H.
Qed.

Lemma collectSymbols_only_extends_symbols_witness :
  In Sample.Baz (visited_idents (fset Sample.loaded) (pkgs Sample.loaded)).
Proof.
  destruct (collectSymbols_only_extends_symbols Sample.loaded)
    as (_ & _ & _ & _ & _ & _ & added & Hsym & Hin).
  apply Hin.
  replace added with [Sample.Foo; Sample.bar; Sample.Baz; Sample.Qux]
    by exact Hsym.
  right. right. left. reflexivity.
Defined.

(** X5: on a linter whose [unexport] map is nil the collector collects
    nothing at all: the test [l.unexport != nil || l.unexport[name]]
    is false for every name. *)
Theorem collectSymbols_nil_unexport_collects_nothing (l : linter) :
  is_nil (unexport l) = true -> collectSymbols l = l.
Proof.
  intros H. rewrite collectSymbols_eq.
  rewrite filter_none, app_nil_r; [apply set_symbols_same|].
  intros sym. unfold retained.
  destruct (unexport l); [discriminate H | reflexivity].
Qed.

Lemma collectSymbols_nil_unexport_collects_nothing_witness :
  collectSymbols (set_unexport Sample.loaded None)
  = set_unexport Sample.loaded None.
Proof.
  apply collectSymbols_nil_unexport_collects_nothing. reflexivity.
Defined.

(** X6: on a linter whose [unexport] map is not nil, as after [init],
    the collector appends every top-level identifier of the files
    that have a file name unless its name is in the skip set; what
    the [unexport] map holds plays no part. *)
Theorem collectSymbols_filters_by_skip_only (l : linter) :
  is_nil (unexport l) = false ->
  symbols (collectSymbols l)
  = (symbols l
     ++ List.filter (fun sym => negb (map_get (skip l) (Name sym)))
          (visited_idents (fset l) (pkgs l)))%list.
Proof.
  intros H. rewrite collectSymbols_eq. cbn [symbols set_symbols].
  f_equal. apply List.filter_ext. intros sym.
  now apply retained_unexport_not_nil.
Qed.

Lemma collectSymbols_filters_by_skip_only_witness :
  symbols (collectSymbols Sample.skipping)
  = [Sample.bar; Sample.Baz; Sample.Qux].
Proof.
  rewrite (collectSymbols_filters_by_skip_only Sample.skipping eq_refl).
  reflexivity.
Defined.

(** ** More on the invoker *)

Section InvokerFacts.

Variable lowerCase : Z -> Z.
Variable upperExcludingLatin : Z -> bool.
Variable Position_String : Position -> string.
Variable World : Type.
Variable CombinedOutput : World -> list string -> string * bool * World.

Implicit Types (l : linter) (p : Proc World) (sym : Ident)
  (g : gmap string string).

Local Abbreviation unexportSymbol_ :=
  (unexportSymbol lowerCase upperExcludingLatin Position_String
                  CombinedOutput).
Local Abbreviation unexportSymbols_ :=
  (unexportSymbols lowerCase upperExcludingLatin Position_String
                   CombinedOutput).
Local Abbreviation argv_of l := (rename_argv lowerCase (fset l)).
Local Abbreviation exported :=
  (fun sym => IsExported upperExcludingLatin (Name sym)).
Local Abbreviation key_of l sym :=
  (success_key Position_String (fset l) (NamePos sym) (Name sym)).
Local Abbreviation text_of sym := (success_text lowerCase (Name sym)).
Local Abbreviation refused w argv := (snd (fst (CombinedOutput w argv))).

(** One turn of the loop on an exported symbol, in full. *)
Lemma unexportSymbol_step sym l p g :
  IsExported upperExcludingLatin (Name sym) = true ->
  success l = Some g ->
  exists p',
    unexportSymbol_ sym (l, p)
    = Some (tt,
        (set_success l
           (Some (if refused (world p) (argv_of l sym) then g
                  else <[key_of l sym := text_of sym]> g)),
         p'))
    /\ execs p' = (execs p ++ [argv_of l sym])%list
    /\ world p' = snd (CombinedOutput (world p) (argv_of l sym)).
Proof.
  intros Hexp Hg. unfold unexportSymbol. rewrite Hexp.
  unfold mbind, M_bind, print. cbn [fst snd].
  set (p1 := printed p _).
  assert (Hsym : {| NamePos := NamePos sym; Name := Name sym |} = sym)
    by now destruct sym.
  destruct (CombinedOutput (world p) (argv_of l sym))
    as [[out err] w] eqn:Hrun.
  cbn [fst snd]. destruct err.
  - destruct (tryUnexport_refused lowerCase Position_String World
                CombinedOutput l p1 (NamePos sym) (Name sym) out w)
      as [text E].
    { rewrite Hsym. exact Hrun. }
    rewrite E. unfold Println, print. cbn [fst snd].
    eexists. split; [rewrite <- Hg, set_success_same; reflexivity|].
    split; [|reflexivity]. cbn. now rewrite Hsym.
  - rewrite (tryUnexport_accepted lowerCase Position_String World
               CombinedOutput l p1 (NamePos sym) (Name sym) out w g);
      [| rewrite Hsym; exact Hrun | exact Hg].
    unfold Println, print. cbn [fst snd].
    eexists. split; [reflexivity|]. split; [|reflexivity].
    cbn. now rewrite Hsym.
Qed.

(** The loop, with everything it leaves behind: the commands, the
    world they ran in one after the other, and a success map that
    keeps what it had and gains entries of exported symbols only. *)
Lemma for_each_unexportSymbol_full syms l p g :
  success l = Some g ->
  exists g' p',
    for_each syms unexportSymbol_ (l, p)
    = Some (tt, (set_success l (Some g'), p'))
    /\ execs p'
       = (execs p ++ map (argv_of l) (List.filter exported syms))%list
    /\ world p'
       = run_in_order CombinedOutput (world p)
           (map (argv_of l) (List.filter exported syms))
    /\ (forall k v, g' !! k = Some v ->
          g !! k = Some v
          \/ exists sym, In sym syms /\ exported sym = true
                         /\ k = key_of l sym /\ v = text_of sym)
    /\ (forall k, is_Some (g !! k) -> is_Some (g' !! k))
    /\ ((forall w argv, refused w argv = true) -> g' = g)
    /\ ((forall w argv, refused w argv = false) ->
        forall sym, In sym syms -> exported sym = true ->
                    is_Some (g' !! key_of l sym)).
Proof.
  revert l p g. induction syms as [|sym syms IH]; intros l p g Hg.
  - exists g, p. cbn [for_each List.filter map run_in_order fold_left].
    rewrite <- Hg, set_success_same, app_nil_r.
    repeat split; auto.
    intros _ sym [].
  - cbn [for_each List.filter]. unfold mbind, M_bind.
    destruct (IsExported upperExcludingLatin (Name sym)) eqn:Hexp.
    + destruct (unexportSymbol_step sym l p g Hexp Hg) as (p1 & E1 & Hx1 & Hw1).
      rewrite E1.
      set (g1 := if refused (world p) (argv_of l sym) then g
                 else <[key_of l sym := text_of sym]> g) in *.
      destruct (IH (set_success l (Some g1)) p1 g1 eq_refl)
        as (g2 & p2 & E2 & Hx2 & Hw2 & Hfrom & Hkeeps & Hrefuse & Haccept).
      exists g2, p2. split; [exact E2|].
      split; [rewrite Hx2, Hx1; cbn [map]; now rewrite <- app_assoc|].
      split; [rewrite Hw2, Hw1; reflexivity|].
      split; [|split; [|split]].
      * intros k v Hk. destruct (Hfrom k v Hk) as [H1|(s & Hin & He & Hk' & Hv)].
        -- subst g1. destruct (refused _ _); [now left|].
           destruct (decide (key_of l sym = k)) as [<-|Hne].
           ++ rewrite lookup_insert_eq in H1. inversion H1.
              right. exists sym. split; [now left | auto].
           ++ rewrite lookup_insert_ne in H1 by exact Hne. now left.
        -- right. exists s. split; [now right | auto].
      * intros k Hk. apply Hkeeps. subst g1.
        destruct (refused _ _); [exact Hk|].
        destruct (decide (key_of l sym = k)) as [<-|Hne].
        -- rewrite lookup_insert_eq. eauto.
        -- now rewrite lookup_insert_ne.
      * intros Hall. rewrite (Hrefuse Hall). subst g1. now rewrite Hall.
      * intros Hall s [<-|Hin] Hs.
        -- apply Hkeeps. subst g1. rewrite Hall, lookup_insert_eq. eauto.
        -- now apply Haccept.
    + rewrite (unexportSymbol_not_exported lowerCase upperExcludingLatin
                 Position_String World CombinedOutput sym (l, p) Hexp).
      destruct (IH l p g Hg)
        as (g2 & p2 & E2 & Hx2 & Hw2 & Hfrom & Hkeeps & Hrefuse & Haccept).
      exists g2, p2. repeat split; auto.
      * intros k v Hk. destruct (Hfrom k v Hk) as [H1|(s & Hin & He & Hk' & Hv)];
          [now left|].
        right. exists s. split; [now right | auto].
      * intros Hall s [<-|Hin] Hs; [congruence | now apply Haccept].
Qed.


(** X8: when the renamer refuses every request, [unexportSymbols]
    still runs the command of every exported symbol and leaves the
    whole linter as it was. *)
Theorem unexportSymbols_all_refused l p g :
  success l = Some g ->
  (forall w argv, refused w argv = true) ->
  exists p',
    unexportSymbols_ (l, p) = Some (tt, (l, p'))
    /\ execs p'
       = (execs p
          ++ map (rename_argv lowerCase (fset l))
               (List.filter exported (symbols l)))%list.
Proof.
  intros Hg Hall.
  destruct (for_each_unexportSymbol_full (symbols l) l p g Hg)
    as (g' & p' & E & Hx & _ & _ & _ & Hrefuse & _).
  exists p'. split; [|exact Hx].
  unfold unexportSymbols, mbind, M_bind, get_linter. cbn [fst snd].
  rewrite E, (Hrefuse Hall), <- Hg, set_success_same. reflexivity.
Qed.

(** X9: the renames run strictly one after the other: the world
    [unexportSymbols] leaves is the one obtained by running the
    commands of the exported symbols in list order, each in the world
    the one before left. *)
Theorem unexportSymbols_sequential l p g :
  success l = Some g ->
  exists l' p',
    unexportSymbols_ (l, p) = Some (tt, (l', p'))
    /\ world p'
       = run_in_order CombinedOutput (world p)
           (map (argv_of l) (List.filter exported (symbols l))).
Proof.
  intros Hg.
  destruct (for_each_unexportSymbol_full (symbols l) l p g Hg)
    as (g' & p' & E & _ & Hw & _).
  exists (set_success l (Some g')), p'. auto.
Qed.

(** X10: when the renamer accepts every request, the success map has
    afterwards an entry under the key of every exported symbol of the
    list. *)
Theorem unexportSymbols_all_accepted l p g :
  success l = Some g ->
  (forall w argv, refused w argv = false) ->
  exists g' p',
    unexportSymbols_ (l, p) = Some (tt, (set_success l (Some g'), p'))
    /\ forall sym, In sym (symbols l) -> exported sym = true ->
                   is_Some (g' !! key_of l sym).
Proof.
  intros Hg Hall.
  destruct (for_each_unexportSymbol_full (symbols l) l p g Hg)
    as (g' & p' & E & _ & _ & _ & _ & _ & Haccept).
  exists g', p'. auto.
Qed.

(** X11: with a success map that is not nil, [tryUnexport] returns
    [success] exactly when the renamer reports no error, and otherwise
    [impossible: ] followed by the text of a category. *)
Theorem tryUnexport_status l p pos name g :
  success l = Some g ->
  exists status st',
    tryUnexport lowerCase Position_String CombinedOutput pos name (l, p)
    = Some (status, st')
    /\ (status = "success"
        <-> refused (world p)
              (argv_of l {| NamePos := pos; Name := name |}) = false)
    /\ (refused (world p)
          (argv_of l {| NamePos := pos; Name := name |}) = true ->
        exists c, status = "impossible: " +:+ category_text c).
Proof.
  intros Hg.
  destruct (CombinedOutput (world p)
              (argv_of l {| NamePos := pos; Name := name |}))
    as [[out err] w] eqn:Hrun.
  cbn [fst snd]. destruct err.
  - destruct (tryUnexport_refused lowerCase Position_String World
                CombinedOutput l p pos name out w Hrun) as [text E].
    rewrite E. eexists. eexists. split; [reflexivity|]. split.
    + split; intros H; discriminate H.
    + intros _. eexists. reflexivity.
  - rewrite (tryUnexport_accepted lowerCase Position_String World
               CombinedOutput l p pos name out w g Hrun Hg).
    eexists. eexists. split; [reflexivity|]. split.
    + split; reflexivity.
    + intros H; discriminate H.
Qed.

End InvokerFacts.


Lemma unexportSymbols_all_refused_witness :
  exists p',
    unexportSymbols Sample.lowerCase Sample.upperExcludingLatin
      Sample.Position_String Scenario.refuse_all
      (Sample.collected, Sample.proc0)
    = Some (tt, (Sample.collected, p'))
    /\ length (execs p') = 3%nat.
Proof.
  destruct (unexportSymbols_all_refused Sample.lowerCase
              Sample.upperExcludingLatin Sample.Position_String unit
              Scenario.refuse_all Sample.collected Sample.proc0 ∅ eq_refl)
    as (p' & E & Hx); [reflexivity|].
  exists p'. split; [exact E | now rewrite Hx].
Defined.

Lemma unexportSymbols_sequential_witness :
  exists l' p',
    unexportSymbols Sample.lowerCase Sample.upperExcludingLatin
      Sample.Position_String Scenario.count_renames
      (Sample.collected, Scenario.counting0)
    = Some (tt, (l', p'))
    /\ world p' = 3.
Proof.
  destruct (unexportSymbols_sequential Sample.lowerCase
              Sample.upperExcludingLatin Sample.Position_String Z
              Scenario.count_renames Sample.collected Scenario.counting0 ∅
              eq_refl)
    as (l' & p' & E & Hw).
  exists l', p'. split; [exact E | now rewrite Hw].
Defined.

Lemma unexportSymbols_all_accepted_witness :
  exists g' p',
    unexportSymbols Sample.lowerCase Sample.upperExcludingLatin
      Sample.Position_String Scenario.accept_all
      (Sample.collected, Sample.proc0)
    = Some (tt, (set_success Sample.collected (Some g'), p'))
    /\ is_Some (g' !! "a.go:7:1/Qux").
Proof.
  destruct (unexportSymbols_all_accepted Sample.lowerCase
              Sample.upperExcludingLatin Sample.Position_String unit
              Scenario.accept_all Sample.collected Sample.proc0 ∅ eq_refl)
    as (g' & p' & E & Hall); [reflexivity|].
  exists g', p'. split; [exact E|].
  apply (Hall Sample.Qux); [right; right; right; left; reflexivity|].
  reflexivity.
Defined.

Lemma tryUnexport_status_witness :
  exists status st',
    tryUnexport Sample.lowerCase Sample.Position_String
      Sample.CombinedOutput 40 "Baz" (Sample.collected, Sample.proc0)
    = Some (status, st')
    /\ status <> "success".
Proof.
  destruct (tryUnexport_status Sample.lowerCase Sample.Position_String unit
              Sample.CombinedOutput Sample.collected Sample.proc0 40 "Baz" ∅
              eq_refl) as (status & st' & E & Hiff & _).
  exists status, st'. split; [exact E|].
  intros H. apply Hiff in H. discriminate H.
Defined.

(** ** The reporter *)

Lemma printed_nil {World : Type} (p : Proc World) : printed p "" = p.
Proof. unfold printed. rewrite append_nil_r. now destruct p. Qed.

Lemma printed_printed {World : Type} (p : Proc World) (a b : string) :
  printed (printed p a) b = printed p (a +:+ b).
Proof. unfold printed. cbn. now rewrite append_assoc. Qed.

Lemma for_each_printResult {World : Type} (entries : list (string * string))
    (l : linter) (p : Proc World) :
  for_each entries printResult (l, p)
  = Some (tt, (l, printed p (join (map result_line entries)))).
Proof.
  revert p. induction entries as [|e es IH]; intros p.
  - cbn [for_each map join]. now rewrite printed_nil.
  - cbn [for_each map join]. unfold mbind, M_bind, printResult at 1, print.
    cbn [fst snd]. rewrite IH, printed_printed. reflexivity.
Qed.

(** [printResults] only writes to standard output. *)
Lemma printResults_run {World : Type}
    (range_order : gmap string string -> list (string * string))
    (l : linter) (p : Proc World) :
  exists text, printResults range_order (l, p) = Some (tt, (l, printed p text)).
Proof.
  unfold printResults, mbind, M_bind, get_linter. cbn [fst snd].
  destruct (verbose (flags l)); cbn [negb].
  - destruct (map_len (success l) =? 0); cbn [negb].
    + exists "". now rewrite printed_nil.
    + unfold Println, print. cbn [fst snd].
      rewrite for_each_printResult, printed_printed. eexists. reflexivity.
  - exists "". now rewrite printed_nil.
Qed.

(** X12: without [-v], or with a success map that is nil or empty,
    [printResults] prints nothing and changes nothing. *)
Theorem printResults_quiet {World : Type}
    (range_order : gmap string string -> list (string * string))
    (l : linter) (p : Proc World) :
  verbose (flags l) = false \/ map_len (success l) = 0 ->
  printResults range_order (l, p) = Some (tt, (l, p)).
Proof.
  intros H. unfold printResults, mbind, M_bind, get_linter. cbn [fst snd].
  destruct (verbose (flags l)); cbn [negb]; [|reflexivity].
  destruct H as [H|H]; [discriminate H|]. now rewrite H.
Qed.

Lemma printResults_quiet_witness :
  printResults Scenario.range_order (Sample.collected, Sample.proc0)
  = Some (tt, (Sample.collected, Sample.proc0)).
Proof. apply printResults_quiet. left. reflexivity. Defined.

(** X13: with [-v] and a success map that has entries, [printResults]
    prints the line [unexported:] and then one line
    [<tab>key: description] for each entry of the map, each entry
    once, in the order the map is ranged over; the linter is not
    changed. *)
Theorem printResults_one_line_per_entry {World : Type}
    (range_order : gmap string string -> list (string * string))
    (l : linter) (p : Proc World) (g : gmap string string) :
  verbose (flags l) = true ->
  success l = Some g ->
  g <> ∅ ->
  range_order g ≡ₚ map_to_list g ->
  exists lines,
    printResults range_order (l, p)
    = Some (tt, (l, printed p ("unexported:" +:+ newline +:+ join lines)))
    /\ lines ≡ₚ map result_line (map_to_list g)
    /\ length lines = size g.
Proof.
  intros Hv Hg Hne Hperm.
  exists (map result_line (range_order g)). split; [|split].
  - unfold printResults, mbind, M_bind, get_linter. cbn [fst snd].
    rewrite Hv, Hg. cbn [negb map_len map_range].
    assert (Hsize : size g <> 0%nat) by (now rewrite map_size_empty_iff).
    destruct (Z.eqb_spec (Z.of_nat (size g)) 0) as [E|_]; [lia|].
    cbn [negb]. unfold Println, print. cbn [fst snd String.concat].
    rewrite for_each_printResult, printed_printed, append_assoc.
    reflexivity.
  - now apply Permutation_map.
  - rewrite length_map, Hperm. apply length_map_to_list.
Qed.

Lemma printResults_one_line_per_entry_witness :
  exists lines,
    printResults Scenario.range_order
      (set_success (set_flags Sample.collected Scenario.flags_skip_Foo)
         (Some {[ "a.go:3:1/Foo" := "Foo -> foo" ]}),
       Sample.proc0)
    = Some (tt,
        (set_success (set_flags Sample.collected Scenario.flags_skip_Foo)
           (Some {[ "a.go:3:1/Foo" := "Foo -> foo" ]}),
         printed Sample.proc0 ("unexported:" +:+ newline +:+ join lines)))
    /\ length lines = 1%nat.
Proof.
  destruct (printResults_one_line_per_entry Scenario.range_order
              (set_success (set_flags Sample.collected Scenario.flags_skip_Foo)
                 (Some {[ "a.go:3:1/Foo" := "Foo -> foo" ]}))
              Sample.proc0 {[ "a.go:3:1/Foo" := "Foo -> foo" ]}
              eq_refl eq_refl)
    as (lines & E & _ & Hlen).
  - apply insert_non_empty.
  - reflexivity.
  - exists lines. split; [exact E|]. rewrite Hlen. apply map_size_singleton.
Defined.

(** ** The main function *)

Lemma loadTargets_pkgs (units : list Unit) (ps : list Pkg) :
  fold_left (fun ps u =>
               match Test u with
               | Some t => (ps ++ [t])%list
               | None => (ps ++ [Base u])%list
               end) units ps
  = (ps ++ map unit_pkg units)%list.
Proof.
  revert ps. induction units as [|u us IH]; intros ps; cbn [fold_left map].
  - now rewrite app_nil_r.
  - rewrite IH. unfold unit_pkg at 2.
    destruct (Test u); now rewrite <- app_assoc.
Qed.

Lemma map_get_mark_all (ks : list string) (k : string) :
  map_get (Some (mark_all ks ∅)) k = existsb (String.eqb k) ks.
Proof.
  apply Bool.eq_iff_eq_true. cbn [map_get].
  rewrite mark_all_get, lookup_empty, existsb_exists. split.
  - intros [H|H]; [|discriminate H]. exists k. split; [exact H|].
    apply String.eqb_refl.
  - intros (x & Hin & Heq). apply String.eqb_eq in Heq. subst x. now left.
Qed.

Section MainFacts.

Variable lowerCase : Z -> Z.
Variable upperExcludingLatin : Z -> bool.
Variable Position_String : Position -> string.
Variable World : Type.
Variable CombinedOutput : World -> list string -> string * bool * World.
Variable range_order : gmap string string -> list (string * string).
Variable Load : World -> list string -> LoadResult.

Local Abbreviation main_ :=
  (main lowerCase upperExcludingLatin Position_String CombinedOutput
        range_order Load).
Local Abbreviation exported :=
  (fun sym => IsExported upperExcludingLatin (Name sym)).

(** The linter after [init] and [parseFlags]. *)
Local Abbreviation configured parsed :=
  (set_skip
     (set_unexport
        (set_flags
           (set_success (set_skip (set_unexport zero_linter (Some ∅)) (Some ∅))
              (Some ∅))
           parsed)
        (Some (mark_all (Split_comma (unexport_flag parsed)) ∅)))
     (Some (mark_all (Split_comma (skip_flag parsed)) ∅))).

Lemma run_steps_returns_nil (name : string) (step : M World unit)
    (rest : list (string * M World (option string)))
    (st : linter * Proc World) :
  run_steps ((name, returns_nil step) :: rest) st
  = match step st with
    | Some (_, st') => run_steps rest st'
    | None => None
    end.
Proof.
  cbn [run_steps]. unfold returns_nil, mbind, M_bind.
  destruct (step st) as [[[] st']|]; reflexivity.
Qed.

Lemma run_steps_cons (name : string) (fn : M World (option string))
    (rest : list (string * M World (option string)))
    (st : linter * Proc World) :
  run_steps ((name, fn) :: rest) st
  = match fn st with
    | Some (Some e, st') => Some (Fatal (name +:+ ": " +:+ e), st')
    | Some (None, st') => run_steps rest st'
    | None => None
    end.
Proof.
  cbn [run_steps]. unfold mbind, M_bind.
  destruct (fn st) as [[[e|] st']|]; reflexivity.
Qed.

Lemma main_until_load (parsed : Flags) (p : Proc World) :
  main_ parsed p
  = run_steps
      [("load targets", loadTargets_step Load);
       ("collect symbols", returns_nil (update collectSymbols));
       ("unexport symbols",
        returns_nil (unexportSymbols lowerCase upperExcludingLatin
                       Position_String CombinedOutput));
       ("print results", returns_nil (printResults range_order))]
      (configured parsed, p).
Proof.
  unfold main, main_steps.
  rewrite run_steps_returns_nil.
  unfold init at 1, mbind at 1 2, M_bind, update. cbn [fst snd].
  rewrite run_steps_returns_nil.
  rewrite (parseFlags_run parsed
             (set_success (set_skip (set_unexport zero_linter (Some ∅))
                                    (Some ∅)) (Some ∅))
             p ∅ ∅ eq_refl eq_refl).
  reflexivity.
Qed.

Lemma loadTargets_step_run (l : linter) (p : Proc World) :
  loadTargets_step Load (l, p)
  = match Load (world p) (targets (flags l)) with
    | LoadFailed err =>
        Some (Some err, (set_loaded l NewFileSet (pkgs l), p))
    | Loaded fs units =>
        Some (None, (set_loaded l fs (pkgs l ++ map unit_pkg units)%list, p))
    end.
Proof.
  unfold loadTargets_step, mbind, M_bind, update, get_linter, get_world.
  cbn [fst snd flags set_loaded].
  destruct (Load (world p) (targets (flags l))) as [fs units|err];
    [|reflexivity].
  unfold loadTargets, update. cbn [fst snd pkgs set_loaded flags].
  now rewrite loadTargets_pkgs.
Qed.

(** X14: when loading the targets fails, [main] stops with the fatal
    message [load targets: <error>] before anything is collected: no
    command has run and nothing was printed. *)
Theorem main_load_failure_is_fatal (parsed : Flags) (p : Proc World)
    (err : string) :
  Load (world p) (targets parsed) = LoadFailed err ->
  exists l',
    main_ parsed p = Some (Fatal ("load targets: " +:+ err), (l', p))
    /\ symbols l' = [] /\ pkgs l' = [].
Proof.
  intros H. rewrite main_until_load, run_steps_cons, loadTargets_step_run.
  cbn [flags set_skip set_unexport set_flags]. rewrite H.
  eexists. split; [reflexivity|]. split; reflexivity.
Qed.

(** X15: when loading succeeds, [main] runs to its end.  It keeps for
    every unit the test variant when there is one and the base package
    otherwise; it collects the top-level identifiers of the named
    files of these packages whose name is not a piece of the [-skip]
    flag; and it runs, in that order, the renamer on the exported ones
    among them, each in the world the one before left. *)
Theorem main_end_to_end (parsed : Flags) (p : Proc World)
    (fs : Z -> Position) (units : list Unit) :
  Load (world p) (targets parsed) = Loaded fs units ->
  exists l' p',
    main_ parsed p = Some (Done, (l', p'))
    /\ pkgs l' = map unit_pkg units
    /\ symbols l'
       = List.filter
           (fun sym => negb (existsb (String.eqb (Name sym))
                               (Split_comma (skip_flag parsed))))
           (visited_idents fs (map unit_pkg units))
    /\ execs p'
       = (execs p
          ++ map (rename_argv lowerCase fs)
               (List.filter exported (symbols l')))%list
    /\ world p'
       = run_in_order CombinedOutput (world p)
           (map (rename_argv lowerCase fs)
              (List.filter exported (symbols l'))).
Proof.
  intros H. rewrite main_until_load, run_steps_cons, loadTargets_step_run.
  cbn [flags set_skip set_unexport set_flags]. rewrite H.
  cbn [pkgs set_skip set_unexport set_flags set_success zero_linter app].
  set (l3 := set_loaded _ fs (map unit_pkg units)).
  rewrite run_steps_returns_nil. unfold update at 1. cbn [fst snd].
  rewrite run_steps_returns_nil.
  assert (Hsym : symbols (collectSymbols l3)
                 = List.filter
                     (fun sym => negb (existsb (String.eqb (Name sym))
                                         (Split_comma (skip_flag parsed))))
                     (visited_idents fs (map unit_pkg units))).
  { rewrite collectSymbols_eq.
    cbn [symbols l3 set_symbols set_loaded set_skip set_unexport set_flags
         set_success zero_linter app fset pkgs].
    apply List.filter_ext. intros sym.
    rewrite retained_unexport_not_nil by reflexivity.
    cbn [skip l3 set_loaded set_skip]. now rewrite map_get_mark_all. }
  destruct (for_each_unexportSymbol_full lowerCase upperExcludingLatin
              Position_String World CombinedOutput
              (symbols (collectSymbols l3)) (collectSymbols l3) p ∅)
    as (g' & p5 & E & Hx & Hw & _).
  { now rewrite collectSymbols_eq. }
  unfold unexportSymbols at 1, mbind at 1, M_bind, get_linter. cbn [fst snd].
  rewrite E. rewrite run_steps_returns_nil.
  destruct (printResults_run range_order
              (set_success (collectSymbols l3) (Some g')) p5) as [text Ep].
  rewrite Ep. cbn [run_steps mret M_ret].
  eexists. eexists. split; [reflexivity|].
  assert (Hfs : fset (collectSymbols l3) = fs) by now rewrite collectSymbols_eq.
  cbn [pkgs symbols set_success execs world printed].
  rewrite Hfs in Hx, Hw.
  split; [now rewrite collectSymbols_eq|].
  split; [exact Hsym|]. split; [exact Hx | exact Hw].
Qed.

(** X16: [main] never panics: whatever the flags, the loader, the
    renamer and the map order are, no step writes to a nil map. *)
Theorem main_never_panics (parsed : Flags) (p : Proc World) :
  is_Some (main_ parsed p).
Proof.
  rewrite main_until_load, run_steps_cons, loadTargets_step_run.
  cbn [flags set_skip set_unexport set_flags].
  destruct (Load (world p) (targets parsed)) as [fs units|err]; [|eauto].
  rewrite run_steps_returns_nil. unfold update at 1. cbn [fst snd].
  rewrite run_steps_returns_nil.
  match goal with
  | |- context [unexportSymbols _ _ _ _ (collectSymbols ?l, _)] =>
      destruct (for_each_unexportSymbol_full lowerCase upperExcludingLatin
                  Position_String World CombinedOutput
                  (symbols (collectSymbols l)) (collectSymbols l) p ∅)
        as (g' & p5 & E & _); [now rewrite collectSymbols_eq|]
  end.
  unfold unexportSymbols at 1, mbind at 1, M_bind, get_linter. cbn [fst snd].
  rewrite E, run_steps_returns_nil.
  match goal with
  | |- context [printResults _ (?l, _)] =>
      destruct (printResults_run range_order l p5) as [text Ep]
  end.
  rewrite Ep. cbn [run_steps mret M_ret]. eauto.
Qed.

End MainFacts.

Lemma main_load_failure_is_fatal_witness :
  exists l',
    main Sample.lowerCase Sample.upperExcludingLatin Sample.Position_String
      Sample.CombinedOutput Scenario.range_order Scenario.Load_fails
      Scenario.flags_default Sample.proc0
    = Some (Fatal "load targets: no Go files", (l', Sample.proc0)).
Proof.
  destruct (main_load_failure_is_fatal Sample.lowerCase
              Sample.upperExcludingLatin Sample.Position_String unit
              Sample.CombinedOutput Scenario.range_order Scenario.Load_fails
              Scenario.flags_default Sample.proc0 "no Go files" eq_refl)
    as (l' & E & _).
  exists l'. exact E.
Defined.

Lemma main_end_to_end_witness :
  exists l' p',
    main Sample.lowerCase Sample.upperExcludingLatin Sample.Position_String
      Sample.CombinedOutput Scenario.range_order Scenario.Load
      Scenario.flags_skip_Foo Sample.proc0
    = Some (Done, (l', p'))
    /\ symbols l' = [Sample.bar; Sample.Baz]
    /\ execs p' = [["gorename"; "-offset"; "a.go:#40"; "-to"; "baz"]].
Proof.
  destruct (main_end_to_end Sample.lowerCase
              Sample.upperExcludingLatin Sample.Position_String unit
              Sample.CombinedOutput Scenario.range_order Scenario.Load
              Scenario.flags_skip_Foo Sample.proc0 Sample.fs' _ eq_refl)
    as (l' & p' & E & _ & Hsym & Hx & _).
  exists l', p'. split; [exact E|]. split; [exact Hsym|].
  rewrite Hx, Hsym. reflexivity.
Defined.

(** ** More on the name transform *)

Lemma to_byte_byte_val (c : ascii) : to_byte (byte_val c) = c.
Proof.
  pose proof (byte_val_range c) as H. unfold to_byte.
  change 0xFF with (Z.ones 8). rewrite Z.land_ones by lia.
  rewrite Z.mod_small by lia. unfold byte_val.
  rewrite N2Z.id. apply ascii_N_embedding.
Qed.

(** X17: on a name whose first byte is ASCII, the transform touches
    that byte only: an upper-case letter [A]..[Z] is replaced by its
    lower-case letter, and with any other first byte (a lower-case
    letter, a digit, an underscore) the name comes back unchanged. *)
Theorem toLowerFirst_ascii_first_byte (lowerCase : Z -> Z) (c : ascii)
    (t : string) :
  byte_val c <= 0x7F ->
  toLowerFirst lowerCase (String c t)
  = String (if is_ascii_upper (byte_val c)
            then to_byte (byte_val c + 32) else c) t.
Proof.
  intros H. rewrite toLowerFirst_ascii by exact H.
  unfold unicode.ToLower, unicode.MaxASCII, is_ascii_upper.
  destruct (Z.leb_spec (byte_val c) 127); [|lia].
  destruct ((65 <=? byte_val c) && (byte_val c <=? 90)); [reflexivity|].
  now rewrite to_byte_byte_val.
Qed.

Lemma toLowerFirst_ascii_first_byte_witness :
  toLowerFirst Sample.lowerCase "_Foo" = "_Foo"
  /\ toLowerFirst Sample.lowerCase "Zed" = "zed".
Proof.
  split.
  - now rewrite (toLowerFirst_ascii_first_byte Sample.lowerCase "_" "Foo").
  - now rewrite (toLowerFirst_ascii_first_byte Sample.lowerCase "Z" "ed").
Defined.

Lemma IsExported_ascii (upperExcludingLatin : Z -> bool) (c : ascii)
    (t : string) :
  byte_val c <= 0x7F ->
  IsExported upperExcludingLatin (String c t) = is_ascii_upper (byte_val c).
Proof.
  intros H. pose proof (byte_val_range c) as Hr.
  unfold IsExported. rewrite decode_ascii by exact H. cbn [fst].
  unfold unicode.IsUpper, unicode.MaxLatin1, unicode.latin1_upper,
    is_ascii_upper.
  destruct (Z.leb_spec 0 (byte_val c)); [|lia].
  destruct (Z.leb_spec (byte_val c) 255); [|lia]. cbn [andb].
  destruct (Z.leb_spec 192 (byte_val c)); [lia|].
  destruct (Z.leb_spec 216 (byte_val c)); [lia|].
  cbn [andb]. now rewrite !orb_false_r.
Qed.

(** X18: a name whose first byte is ASCII is exported exactly when
    that byte is one of [A]..[Z], whatever follows; and the transform
    of such an exported name is a different name that is not
    exported. *)
Theorem toLowerFirst_unexports_ascii_name (lowerCase : Z -> Z)
    (upperExcludingLatin : Z -> bool) (c : ascii) (t : string) :
  byte_val c <= 0x7F ->
  IsExported upperExcludingLatin (String c t) = is_ascii_upper (byte_val c)
  /\ (is_ascii_upper (byte_val c) = true ->
      IsExported upperExcludingLatin (toLowerFirst lowerCase (String c t))
      = false
      /\ toLowerFirst lowerCase (String c t) <> String c t).
Proof.
  intros H. split; [now apply IsExported_ascii|].
  intros Hup. pose proof Hup as Hup'.
  unfold is_ascii_upper in Hup'. rewrite andb_true_iff, !Z.leb_le in Hup'.
  rewrite toLowerFirst_ascii by exact H.
  assert (Hlow : unicode.ToLower lowerCase (byte_val c) = byte_val c + 32).
  { unfold unicode.ToLower, unicode.MaxASCII.
    destruct (Z.leb_spec (byte_val c) 127); [|lia].
    unfold is_ascii_upper in Hup. now rewrite Hup. }
  rewrite Hlow.
  assert (Hb : byte_val (to_byte (byte_val c + 32)) = byte_val c + 32)
    by (apply byte_val_to_byte; lia).
  split.
  - apply IsExported_ascii_lower. lia.
  - intros E. inversion E as [Ec]. rewrite Ec in Hb. lia.
Qed.

Lemma toLowerFirst_unexports_ascii_name_witness :
  IsExported Sample.upperExcludingLatin "HTTPClient" = true
  /\ IsExported Sample.upperExcludingLatin
       (toLowerFirst Sample.lowerCase "HTTPClient") = false.
Proof.
  destruct (toLowerFirst_unexports_ascii_name Sample.lowerCase
              Sample.upperExcludingLatin "H" "TTPClient")
    as [Hexp Hlow]; [vm_compute; discriminate|].
  split; [exact Hexp|]. apply Hlow. reflexivity.
Defined.

(** ** More on the classifier *)

Lemma length_append (a b : string) :
  String.length (a +:+ b) = (String.length a + String.length b)%nat.
Proof.
  induction a as [|c a IH]; [reflexivity|].
  rewrite append_cons. cbn [String.length]. now rewrite IH.
Qed.

Lemma Contains_length (s substr : string) :
  Contains s substr = true -> (String.length substr <= String.length s)%nat.
Proof.
  intros H. apply Contains_occurs in H. destruct H as (pre & post & ->).
  rewrite !length_append. lia.
Qed.

Section ClassifierFacts.

Context {World : Type}.
Implicit Types (st : linter * Proc World) (s : string).

(** X19: [prettyError] never reports a category whose phrase is not
    in the text: when it returns the text of a category other than
    unknown, the phrase of that category occurs in the diagnostic. *)
Theorem prettyError_category_phrase_occurs s st c st' sub :
  prettyError s st = Some (category_text c, st') ->
  category_substring c = Some sub ->
  exists pre post, s = pre +:+ sub +:+ post.
Proof.
  intros Hrun Hsub.
  destruct (prettyError_returns s st) as [st'' E].
  rewrite E in Hrun. inversion Hrun as [[Hc Hst]].
  apply category_text_inj in Hc. clear Hrun E.
  apply Contains_occurs.
  rewrite classify_spec_unfold in Hc.
  repeat match type of Hc with
  | (if Contains s ?p then _ else _) = _ =>
      destruct (Contains s p) eqn:?
  end; subst c; cbn in Hsub; inversion Hsub; subst sub; assumption.
Qed.

(** X20: for a diagnostic of a known category [prettyError] prints
    nothing and changes nothing; only the unknown ones are written to
    standard output. *)
Theorem prettyError_known_is_silent s st :
  classify_spec s <> Unknown ->
  prettyError s st = Some (category_text (classify_spec s), st).
Proof.
  rewrite classify_spec_unfold. unfold prettyError. intros H.
  repeat match goal with
  | |- context [if Contains s ?p then _ else _] =>
      destruct (Contains s p); [reflexivity|]
  end.
  congruence.
Qed.

(** X21: a diagnostic shorter than 19 bytes, the empty output of a
    renamer that failed without a word included, is classified as
    unknown. *)
Theorem prettyError_short_is_unknown s st :
  (String.length s < 19)%nat ->
  exists st', prettyError s st = Some ("unknown error", st').
Proof.
  intros H. destruct (prettyError_returns s st) as [st' E].
  exists st'. rewrite E. do 2 f_equal.
  rewrite classify_spec_unfold.
  repeat match goal with
  | |- context [if Contains s ?p then _ else _] =>
      let Hc := fresh "Hc" in
      destruct (Contains s p) eqn:Hc;
      [apply Contains_length in Hc; cbn in Hc; lia|]
  end.
  reflexivity.
Qed.

End ClassifierFacts.

Lemma prettyError_category_phrase_occurs_witness :
  exists pre post,
    "gorename: -to 9x: not a valid identifier"
    = pre +:+ "not a valid identifier" +:+ post.
Proof.
  apply (prettyError_category_phrase_occurs
           "gorename: -to 9x: not a valid identifier"
           (Sample.ready, Sample.proc0) InvalidIdentifier
           (Sample.ready, Sample.proc0)); reflexivity.
Defined.

Lemma prettyError_known_is_silent_witness :
  prettyError "cannot rename: would conflict with this method"
    (Sample.ready, Sample.proc0)
  = Some ("symbols with unexported name form already exists",
          (Sample.ready, Sample.proc0)).
Proof.
  apply (prettyError_known_is_silent
           "cannot rename: would conflict with this method"
           (Sample.ready, Sample.proc0)).
  discriminate.
Defined.

Lemma prettyError_short_is_unknown_witness :
  exists st',
    prettyError "" (Sample.ready, Sample.proc0) = Some ("unknown error", st').
Proof.
  apply (prettyError_short_is_unknown "" (Sample.ready, Sample.proc0)).
  cbn. lia.
Defined.

(** ** Encoding and decoding a rune *)

Lemma lor_add (a lo hi k : Z) :
  0 <= k -> a = Z.shiftl hi k -> 0 <= lo < 2 ^ k -> Z.lor a lo = a + lo.
Proof.
  intros Hk -> Hlo.
  rewrite <- Z.lxor_lor, <- Z.add_nocarry_lxor; trivial.
  all: apply Z.bits_inj'; intros m Hm;
    rewrite Z.land_spec, Z.bits_0;
    destruct (Z.lt_ge_cases m k) as [Hlt|Hge];
    [ now rewrite Z.shiftl_spec_low
    | rewrite <- (Z.mod_small lo (2 ^ k)) by lia;
      rewrite Z.mod_pow2_bits_high by lia; apply andb_false_r ].
Qed.

Lemma out_of_in (lo hi b : Z) : lo <= b <= hi -> utf8.out_of lo hi b = false.
Proof.
  intros H. unfold utf8.out_of.
  destruct (Z.ltb_spec b lo), (Z.ltb_spec hi b); (reflexivity || lia).
Qed.

Lemma len_cons (c : ascii) (t : string) : len (String c t) = 1 + len t.
Proof. unfold len. cbn [String.length]. lia. Qed.

Lemma len_nonneg (t : string) : 0 <= len t.
Proof. unfold len. lia. Qed.

Ltac lead_class :=
  unfold utf8.first;
  repeat match goal with
  | |- context [byte_val ?c <=? ?k] =>
      destruct (Z.leb_spec (byte_val c) k); try lia
  | |- context [byte_val ?c =? ?k] =>
      destruct (Z.eqb_spec (byte_val c) k); try lia
  end.

Ltac decode_steps :=
  cbv [utf8.as_ utf8.xx utf8.s1 utf8.s2 utf8.s3 utf8.s4 utf8.s5 utf8.s6
       utf8.s7 utf8.RuneError utf8.mask2 utf8.mask3 utf8.mask4
       utf8.maskx utf8.locb utf8.hicb];
  eval_closed;
  repeat match goal with
  | |- context [len ?s <? Zpos ?k] =>
      let Hlt := fresh "Hlt" in
      destruct (Z.ltb_spec (len s) (Zpos k)) as [Hlt|_];
      [ exfalso; rewrite !len_cons in Hlt;
        match type of Hlt with
        | context [len ?t] => pose proof (len_nonneg t)
        end; lia | ]
  | |- context [utf8.out_of ?a ?b ?x] =>
      rewrite (out_of_in a b x) by lia
  end.

Lemma decode2 (c0 c1 : ascii) (t : string) :
  0xC2 <= byte_val c0 <= 0xDF ->
  0x80 <= byte_val c1 <= 0xBF ->
  utf8.DecodeRuneInString (String c0 (String c1 t))
  = (Z.lor (Z.shiftl (Z.land (byte_val c0) 31) 6) (Z.land (byte_val c1) 63),
     2).
Proof.
  intros H0 H1. unfold utf8.DecodeRuneInString.
  lead_class; decode_steps; reflexivity.
Qed.

Lemma decode3 (c0 c1 c2 : ascii) (t : string) :
  0xE0 <= byte_val c0 <= 0xEF ->
  0x80 <= byte_val c1 <= 0xBF ->
  (byte_val c0 = 0xE0 -> 0xA0 <= byte_val c1) ->
  (byte_val c0 = 0xED -> byte_val c1 <= 0x9F) ->
  0x80 <= byte_val c2 <= 0xBF ->
  utf8.DecodeRuneInString (String c0 (String c1 (String c2 t)))
  = (Z.lor (Z.lor (Z.shiftl (Z.land (byte_val c0) 15) 12)
                  (Z.shiftl (Z.land (byte_val c1) 63) 6))
           (Z.land (byte_val c2) 63), 3).
Proof.
  intros H0 H1 HE0 HED H2. unfold utf8.DecodeRuneInString.
  lead_class; decode_steps; reflexivity.
Qed.

Lemma decode4 (c0 c1 c2 c3 : ascii) (t : string) :
  0xF0 <= byte_val c0 <= 0xF4 ->
  0x80 <= byte_val c1 <= 0xBF ->
  (byte_val c0 = 0xF0 -> 0x90 <= byte_val c1) ->
  (byte_val c0 = 0xF4 -> byte_val c1 <= 0x8F) ->
  0x80 <= byte_val c2 <= 0xBF ->
  0x80 <= byte_val c3 <= 0xBF ->
  utf8.DecodeRuneInString (String c0 (String c1 (String c2 (String c3 t))))
  = (Z.lor (Z.lor (Z.lor (Z.shiftl (Z.land (byte_val c0) 7) 18)
                         (Z.shiftl (Z.land (byte_val c1) 63) 12))
                  (Z.shiftl (Z.land (byte_val c2) 63) 6))
           (Z.land (byte_val c3) 63), 4).
Proof.
  intros H0 H1 HF0 HF4 H2 H3. unfold utf8.DecodeRuneInString.
  lead_class; decode_steps; reflexivity.
Qed.

Lemma shiftr_div (x : Z) :
  Z.shiftr x 6 = x / 64 /\ Z.shiftr x 12 = x / 4096
  /\ Z.shiftr x 18 = x / 262144.
Proof. rewrite !Z.shiftr_div_pow2 by lia. auto. Qed.

Lemma enc_cont (x : Z) :
  byte_val (to_byte (Z.lor utf8.tx (Z.land x utf8.maskx))) = 128 + x mod 64.
Proof.
  unfold utf8.tx, utf8.maskx. rewrite (proj1 (land_low x)).
  assert (0 <= x mod 64 < 64) by (apply Z.mod_pos_bound; lia).
  rewrite (lor_add 128 (x mod 64) 2 6); [| lia | reflexivity | simpl; lia].
  apply byte_val_to_byte. lia.
Qed.

Lemma enc_lead2 (r : Z) :
  0 <= r <= 0x7FF ->
  byte_val (to_byte (Z.lor utf8.t2 (Z.shiftr r 6))) = 192 + r / 64.
Proof.
  intros H. unfold utf8.t2. rewrite (proj1 (shiftr_div r)).
  assert (0 <= r / 64 < 32) by (Z.div_mod_to_equations; lia).
  rewrite (lor_add 192 (r / 64) 3 6); [| lia | reflexivity | simpl; lia].
  apply byte_val_to_byte. lia.
Qed.

Lemma enc_lead3 (r : Z) :
  0 <= r <= 0xFFFF ->
  byte_val (to_byte (Z.lor utf8.t3 (Z.shiftr r 12))) = 224 + r / 4096.
Proof.
  intros H. unfold utf8.t3. rewrite (proj1 (proj2 (shiftr_div r))).
  assert (0 <= r / 4096 < 16) by (Z.div_mod_to_equations; lia).
  rewrite (lor_add 224 (r / 4096) 14 4); [| lia | reflexivity | simpl; lia].
  apply byte_val_to_byte. lia.
Qed.

Lemma enc_lead4 (r : Z) :
  0 <= r <= 0x10FFFF ->
  byte_val (to_byte (Z.lor utf8.t4 (Z.shiftr r 18))) = 240 + r / 262144.
Proof.
  intros H. unfold utf8.t4. rewrite (proj2 (proj2 (shiftr_div r))).
  assert (0 <= r / 262144 < 8) by (Z.div_mod_to_equations; lia).
  rewrite (lor_add 240 (r / 262144) 30 3); [| lia | reflexivity | simpl; lia].
  apply byte_val_to_byte. lia.
Qed.

Lemma val2 (b0 b1 : Z) :
  Z.lor (Z.shiftl (Z.land b0 31) 6) (Z.land b1 63)
  = (b0 mod 32) * 64 + b1 mod 64.
Proof.
  rewrite (proj1 (land_low b1)), (proj1 (proj2 (land_low b0))).
  assert (0 <= b1 mod 64 < 64) by (apply Z.mod_pos_bound; lia).
  rewrite (lor_add _ (b1 mod 64) (b0 mod 32) 6);
    [| lia | reflexivity | simpl; lia].
  now rewrite (proj1 (shiftl_mul _)).
Qed.

Lemma val3 (b0 b1 b2 : Z) :
  Z.lor (Z.lor (Z.shiftl (Z.land b0 15) 12) (Z.shiftl (Z.land b1 63) 6))
        (Z.land b2 63)
  = (b0 mod 16) * 4096 + (b1 mod 64) * 64 + b2 mod 64.
Proof.
  rewrite (proj1 (land_low b1)), (proj1 (land_low b2)),
    (proj1 (proj2 (proj2 (land_low b0)))).
  assert (0 <= b1 mod 64 < 64) by (apply Z.mod_pos_bound; lia).
  assert (0 <= b2 mod 64 < 64) by (apply Z.mod_pos_bound; lia).
  rewrite (proj1 (shiftl_mul (b1 mod 64))),
    (proj1 (proj2 (shiftl_mul (b0 mod 16)))).
  rewrite (lor_add _ ((b1 mod 64) * 64) (b0 mod 16) 12);
    [| lia | now rewrite Z.shiftl_mul_pow2 by lia | simpl; lia].
  rewrite (lor_add _ (b2 mod 64) ((b0 mod 16) * 64 + b1 mod 64) 6);
    [reflexivity | lia | rewrite Z.shiftl_mul_pow2 by lia; simpl; lia
    | simpl; lia].
Qed.

Lemma val4 (b0 b1 b2 b3 : Z) :
  Z.lor (Z.lor (Z.lor (Z.shiftl (Z.land b0 7) 18)
                      (Z.shiftl (Z.land b1 63) 12))
               (Z.shiftl (Z.land b2 63) 6))
        (Z.land b3 63)
  = (b0 mod 8) * 262144 + (b1 mod 64) * 4096 + (b2 mod 64) * 64
    + b3 mod 64.
Proof.
  rewrite (proj1 (land_low b1)), (proj1 (land_low b2)),
    (proj1 (land_low b3)), (proj2 (proj2 (proj2 (land_low b0)))).
  assert (0 <= b1 mod 64 < 64) by (apply Z.mod_pos_bound; lia).
  assert (0 <= b2 mod 64 < 64) by (apply Z.mod_pos_bound; lia).
  assert (0 <= b3 mod 64 < 64) by (apply Z.mod_pos_bound; lia).
  rewrite (proj1 (shiftl_mul (b2 mod 64))),
    (proj1 (proj2 (shiftl_mul (b1 mod 64)))),
    (proj2 (proj2 (shiftl_mul (b0 mod 8)))).
  rewrite (lor_add _ ((b1 mod 64) * 4096) (b0 mod 8) 18);
    [| lia | now rewrite Z.shiftl_mul_pow2 by lia | simpl; lia].
  rewrite (lor_add _ ((b2 mod 64) * 64) ((b0 mod 8) * 64 + b1 mod 64) 12);
    [| lia | rewrite Z.shiftl_mul_pow2 by lia; simpl; lia | simpl; lia].
  rewrite (lor_add _ (b3 mod 64)
             (((b0 mod 8) * 64 + b1 mod 64) * 64 + b2 mod 64) 6);
    [reflexivity | lia | rewrite Z.shiftl_mul_pow2 by lia; simpl; lia
    | simpl; lia].
Qed.

Lemma valid_rune_bounds (r : Z) :
  valid_rune r = true ->
  0 <= r <= 0x10FFFF /\ (r < 0xD800 \/ 0xDFFF < r).
Proof.
  unfold valid_rune, utf8.MaxRune, utf8.surrogateMin, utf8.surrogateMax.
  rewrite !andb_true_iff, negb_true_iff, andb_false_iff, !Z.leb_le,
    !Z.leb_gt.
  lia.
Qed.

(** Decoding what [string(r)] gives, whatever follows it, gives [r]
    back, for every Unicode scalar value [r]. *)
Lemma decode_string_of_rune (r : Z) (t : string) :
  valid_rune r = true ->
  fst (utf8.DecodeRuneInString (utf8.string_of_rune r +:+ t)) = r.
Proof.
  intros Hv. apply valid_rune_bounds in Hv. destruct Hv as [Hr Hs].
  unfold utf8.string_of_rune, utf8.enc3, utf8.rune1Max, utf8.rune2Max,
    utf8.rune3Max, utf8.MaxRune, utf8.surrogateMin, utf8.surrogateMax.
  destruct (Z.leb_spec 0 r); [|lia]. cbn [andb].
  destruct (Z.leb_spec r 127).
  { rewrite append_cons, append_nil_l, decode_ascii;
      rewrite byte_val_to_byte by lia; [reflexivity | lia]. }
  destruct (Z.leb_spec r 2047).
  { rewrite !append_cons, append_nil_l.
    pose proof (enc_lead2 r ltac:(lia)) as E0.
    pose proof (enc_cont r) as E1.
    rewrite decode2; rewrite ?E0, ?E1;
      [| Z.div_mod_to_equations; lia | Z.div_mod_to_equations; lia].
    cbn [fst]. rewrite val2. Z.div_mod_to_equations; lia. }
  destruct (Z.ltb_spec r 0); [lia|].
  destruct (Z.ltb_spec 1114111 r); [lia|]. cbn [orb].
  destruct (Z.leb_spec 55296 r), (Z.leb_spec r 57343); try lia; cbn [andb].
  all: destruct (Z.leb_spec r 65535).
  all: rewrite !append_cons, append_nil_l.
  all: try (pose proof (enc_lead3 r ltac:(lia)) as E0).
  all: try (pose proof (enc_lead4 r ltac:(lia)) as E0).
  all: pose proof (enc_cont r) as E1;
       assert (E2 : byte_val (to_byte (Z.lor utf8.tx
                      (Z.land (Z.shiftr r 6) utf8.maskx)))
                    = 128 + (r / 64) mod 64)
         by (rewrite enc_cont; now rewrite (proj1 (shiftr_div r)));
       assert (E3 : byte_val (to_byte (Z.lor utf8.tx
                      (Z.land (Z.shiftr r 12) utf8.maskx)))
                    = 128 + (r / 4096) mod 64)
         by (rewrite enc_cont; now rewrite (proj1 (proj2 (shiftr_div r)))).
  all: first
    [ rewrite decode3; rewrite ?E0, ?E1, ?E2;
      [ cbn [fst]; rewrite val3
      | .. ]; Z.div_mod_to_equations; lia
    | rewrite decode4; rewrite ?E0, ?E1, ?E2, ?E3;
      [ cbn [fst]; rewrite val4
      | .. ]; Z.div_mod_to_equations; lia ].
Qed.

(** X22: whenever the lower-case form of the first rune of a name is
    a Unicode scalar value, the result of the transform starts with
    that lower-case rune, also when the first code point of the name
    takes several bytes. *)
Theorem toLowerFirst_first_code_point (lowerCase : Z -> Z) (s : string) :
  s <> "" ->
  valid_rune (unicode.ToLower lowerCase (fst (utf8.DecodeRuneInString s)))
  = true ->
  fst (utf8.DecodeRuneInString (toLowerFirst lowerCase s))
  = unicode.ToLower lowerCase (fst (utf8.DecodeRuneInString s)).
Proof.
  intros Hs Hv. destruct s as [|c t]; [congruence|].
  rewrite toLowerFirst_cons. now apply decode_string_of_rune.
Qed.

Lemma toLowerFirst_first_code_point_witness :
  fst (utf8.DecodeRuneInString Sample.Elan) = 0xC9
  /\ fst (utf8.DecodeRuneInString
            (toLowerFirst Sample.lowerCase Sample.Elan)) = 0xE9.
Proof.
  split; [reflexivity|].
  rewrite (toLowerFirst_first_code_point Sample.lowerCase Sample.Elan);
    [reflexivity | discriminate | reflexivity].
Defined.

(** X23: [loadTargets], once the load has succeeded, keeps the
    packages the linter had and appends one package for each unit, in
    the order of the units: the test variant when the unit has one,
    the base package otherwise; besides the file set it changes
    nothing else. *)
Theorem loadTargets_one_package_per_unit {World : Type}
    (fs : Z -> Position) (units : list Unit) (l : linter) (p : Proc World) :
  loadTargets fs units (l, p)
  = Some (tt, (set_loaded l fs (pkgs l ++ map unit_pkg units)%list, p))
  /\ length (pkgs l ++ map unit_pkg units)%list
     = (length (pkgs l) + length units)%nat
  /\ forall u, In u units ->
       (Test u = None -> In (Base u) (map unit_pkg units))
       /\ (forall t, Test u = Some t -> In t (map unit_pkg units)).
Proof.
  split; [|split].
  - unfold loadTargets, update. cbn [fst snd]. now rewrite loadTargets_pkgs.
  - now rewrite length_app, length_map.
  - intros u Hin. split.
    + intros Hnone. apply in_map_iff. exists u. split; [|exact Hin].
      unfold unit_pkg. now rewrite Hnone.
    + intros t Hsome. apply in_map_iff. exists u. split; [|exact Hin].
      unfold unit_pkg. now rewrite Hsome.
Qed.

Lemma loadTargets_one_package_per_unit_witness :
  loadTargets Sample.fs' Scenario.units (Sample.ready, Sample.proc0)
  = Some (tt, (Sample.loaded, Sample.proc0))
  /\ In {| Syntax := [Sample.a_go; Sample.synthetic] |}
        (map unit_pkg Scenario.units).
Proof.
  destruct (loadTargets_one_package_per_unit Sample.fs' Scenario.units
              Sample.ready Sample.proc0) as (Hrun & _ & Hin).
  split; [exact Hrun|].
  apply (Hin {| Base := {| Syntax := [Sample.a_go] |};
                Test := Some {| Syntax := [Sample.a_go; Sample.synthetic] |} |});
    [left; reflexivity | reflexivity].
Defined.
